(** * sei-mcp-server: the HTTP/SSE gateway of [src/server/http-server.ts]

    A shallow embedding of the session registry, the persistent-stream
    and addressed-message handlers, the direct-call endpoint (in its two
    variants) and the session-identifier generator, with the properties
    the specification states about them.

    Conventions.
    - The process-wide [connections] map (a JS [Map<string, SSEServerTransport>])
      is a [gmap string transport]; a transport object is identified by the
      number of the connection that constructed it. The order of its keys,
      which the finite map does not keep, is replayed from the trace of its
      [set] and [delete] calls.
    - [Math.random()] is a rational in [0,1): every double is one.
    - Handlers run to completion on the single-threaded event loop; what
      interleaves are the events between them (promise settlements, socket
      closes, new requests), which are the inputs of [step]. *)

From Stdlib Require Import ZArith QArith String Ascii List Lia.
From Stdlib Require Import Numbers.HexadecimalString Numbers.DecimalString.
From stdpp Require Import gmap strings list fin_maps.

Open Scope Z_scope.

(** ** JavaScript primitives used by the source *)

Module Js.

(** [ToInt32]: truncate towards zero, wrap modulo 2^32, read as signed. *)
Definition ToInt32 (q : Q) : Z :=
  let n := Z.quot (Qnum q) (Zpos (Qden q)) in
  let m := n mod 2 ^ 32 in
  if 2 ^ 31 <=? m then m - 2 ^ 32 else m.

(** [x | 0] on a number. *)
Definition bitor0 (q : Q) : Z := ToInt32 q.

(** [Number.prototype.toString(16)] on an integer value. *)
Definition toString16 (v : Z) : string :=
  HexadecimalString.NilZero.string_of_int (Z.to_hex_int v).

(** [BigInt.prototype.toString()]: the decimal representation. *)
Definition bigint_toString (z : Z) : string :=
  DecimalString.NilZero.string_of_int (Z.to_int z).

(** Truthiness of a string: only the empty string is falsy. *)
Definition truthy_string (s : string) : bool :=
  match s with EmptyString => false | String _ _ => true end.

(** Truthiness of [string | undefined]. *)
Definition truthy (o : option string) : bool :=
  match o with Some s => truthy_string s | None => false end.

End Js.

(** ** Identifier generator: [generateSessionId] *)

Module IdGen.

Definition template : string := "xxxxxxxx-xxxx-4xxx-yxxx-xxxxxxxxxxxx".

(** The character class [[xy]]. *)
Definition is_xy (c : ascii) : bool :=
  Ascii.eqb c "x" || Ascii.eqb c "y".

(** [s.replace(/[xy]/g, f)]: the matches are single characters, visited
    left to right; [k] counts the calls of the callback made so far, so
    that the callback can take its own draw of the random source. *)
Fixpoint replace_xy (f : ascii -> nat -> string) (s : string) (k : nat) : string :=
  match s with
  | EmptyString => EmptyString
  | String c s' =>
      if is_xy c then f c k +:+ replace_xy f s' (S k)
      else String c (replace_xy f s' k)
  end.

Section WithRandom.
(** [random k] is the value of the [k]-th call of [Math.random()]. *)
Variable random : nat -> Q.

(** [const r = Math.random() * 16 | 0;] *)
Definition draw (k : nat) : Z := Js.bitor0 (random k * 16)%Q.

(** [const v = c === 'x' ? r : (r & 0x3 | 0x8); return v.toString(16);] *)
Definition callback (c : ascii) (k : nat) : string :=
  let r := draw k in
  let v := if Ascii.eqb c "x" then r else Z.lor (Z.land r 3) 8 in
  Js.toString16 v.

Definition generateSessionId : string := replace_xy callback template 0.
End WithRandom.

(** The canonical layout, read off the specification. *)
Definition is_hex (c : ascii) : bool :=
  existsb (Ascii.eqb c) (list_ascii_of_string "0123456789abcdef").

Definition is_variant (c : ascii) : bool :=
  existsb (Ascii.eqb c) (list_ascii_of_string "89ab").

Definition position_ok (i : nat) (c : ascii) : bool :=
  if existsb (Nat.eqb i) [8; 13; 18; 23]%nat then Ascii.eqb c "-"
  else if Nat.eqb i 14 then Ascii.eqb c "4"
  else if Nat.eqb i 19 then is_variant c
  else is_hex c.

Fixpoint positions_ok (i : nat) (l : list ascii) : bool :=
  match l with
  | [] => true
  | c :: l' => position_ok i c && positions_ok (S i) l'
  end.

Definition uuid_v4_shape (s : string) : bool :=
  Nat.eqb (String.length s) 36 && positions_ok 0 (list_ascii_of_string s).

End IdGen.

(** ** JavaScript values, as they flow through the direct-call endpoint *)

Module Json.

(** A JS number: a double is a rational, an infinity or NaN. *)
Inductive number :=
| Finite (q : Q)
| NaN
| Infinity (negative : bool).

#[local] Unset Elimination Schemes.
Inductive value :=
| Undefined
| Null
| Bool (b : bool)
| Num (n : number)
| BigInt (z : Z)
| Str (s : string)
| Arr (items : list value)
| Obj (fields : list (string * value)).
#[local] Set Elimination Schemes.

(** What a handler can throw: an [Error] with its message, or any other
    value (a backend may throw a string). *)
Inductive exn :=
| JsError (message : string)
| Thrown (v : value).

(** [error instanceof Error ? error.message : fallback] *)
Definition message_or (fallback : string) (e : exn) : string :=
  match e with JsError m => m | Thrown _ => fallback end.

Definition num_of_Z (z : Z) : value := Num (Finite (inject_Z z)).

Definition truthy (v : value) : bool :=
  match v with
  | Undefined | Null => false
  | Bool b => b
  | Num (Finite q) => negb (Qeq_bool q 0)
  | Num NaN => false
  | Num (Infinity _) => true
  | BigInt z => negb (z =? 0)
  | Str s => Js.truthy_string s
  | Arr _ | Obj _ => true
  end.

(** [a || b] *)
Definition or_else (a b : value) : value := if truthy a then a else b.

Definition nullish (v : value) : bool :=
  match v with Undefined | Null => true | _ => false end.

Fixpoint field (k : string) (fields : list (string * value)) : value :=
  match fields with
  | [] => Undefined
  | (k', v) :: rest => if String.eqb k k' then v else field k rest
  end.

(** [v.k] for the property names the handlers read (none of them is a
    built-in property of a string, a number or an array): a TypeError on
    [undefined] and [null], the own field of an object, [undefined]
    elsewhere. The message is V8's. *)
Definition get (v : value) (k : string) : exn + value :=
  match v with
  | Undefined =>
      inl (JsError ("Cannot read properties of undefined (reading '" +:+ k +:+ "')"))
  | Null =>
      inl (JsError ("Cannot read properties of null (reading '" +:+ k +:+ "')"))
  | Obj fields => inr (field k fields)
  | _ => inr Undefined
  end.

(** [v?.k] *)
Definition get_opt (v : value) (k : string) : value :=
  match v with
  | Obj fields => field k fields
  | _ => Undefined
  end.

(** Whether an object has an own property named [k]. *)
Definition has_own (k : string) (fields : list (string * value)) : bool :=
  existsb (fun kv => String.eqb (fst kv) k) fields.

(** Neither an array nor an object. *)
Definition primitive (v : value) : bool :=
  match v with Arr _ | Obj _ => false | _ => true end.

(** [Number(b)] for a BigInt: the nearest double, ties to even;
    beyond the largest double, an infinity. *)
Definition Number_of_bigint (z : Z) : number :=
  let a := Z.abs z in
  let e := Z.log2 a - 52 in
  let rounded :=
    if e <=? 0 then a
    else
      let q := Z.shiftr a e in
      let r := Z.land a (Z.ones e) in
      let half := Z.shiftl 1 (e - 1) in
      let up := (half <? r) || ((half =? r) && Z.odd q) in
      Z.shiftl (if up then q + 1 else q) e in
  if 2 ^ 1024 <=? rounded then Infinity (z <? 0)
  else Finite (inject_Z (Z.sgn z * rounded)).

Fixpoint depth (v : value) : nat :=
  match v with
  | Arr items => S (list_max (List.map depth items))
  | Obj fields => S (list_max (List.map (fun kv => depth (snd kv)) fields))
  | _ => O
  end.

Fixpoint has_bigint (v : value) : bool :=
  match v with
  | BigInt _ => true
  | Arr items => existsb has_bigint items
  | Obj fields => existsb (fun kv => has_bigint (snd kv)) fields
  | _ => false
  end.

(** *** [JSON.stringify(value, replacer)] followed by [JSON.parse]

    The text in between is not modelled: the composition is a function
    on trees. [SerializeJSONProperty] follows the ECMAScript operation of
    that name: the replacer is applied to the held value first, then the
    result is serialized by type; [None] at the outer level means that the
    fuel ran out, [inr None] that the property serializes to [undefined]. *)

Definition index_key (i : nat) : string :=
  DecimalString.NilZero.string_of_uint (Nat.to_uint i).

Section Serialize.
Variable rec : string -> value -> option (exn + option value).

(** Array elements in index order; [undefined] becomes [null]. *)
Fixpoint SerializeJSONArray (i : nat) (items : list value)
  : option (exn + list value) :=
  match items with
  | [] => Some (inr [])
  | x :: rest =>
      match rec (index_key i) x with
      | None => None
      | Some (inl e) => Some (inl e)
      | Some (inr o) =>
          match SerializeJSONArray (S i) rest with
          | None => None
          | Some (inl e) => Some (inl e)
          | Some (inr l) => Some (inr (default Null o :: l))
          end
      end
  end.

(** Own properties in order; those that serialize to [undefined] are
    left out. *)
Fixpoint SerializeJSONObject (fields : list (string * value))
  : option (exn + list (string * value)) :=
  match fields with
  | [] => Some (inr [])
  | (k, x) :: rest =>
      match rec k x with
      | None => None
      | Some (inl e) => Some (inl e)
      | Some (inr o) =>
          match SerializeJSONObject rest with
          | None => None
          | Some (inl e) => Some (inl e)
          | Some (inr l) =>
              Some (inr (match o with Some y => (k, y) :: l | None => l end))
          end
      end
  end.
End Serialize.

Fixpoint SerializeJSONProperty (fuel : nat) (replacer : string -> value -> value)
    (key : string) (held : value) : option (exn + option value) :=
  match fuel with
  | O => None
  | S fuel' =>
      match replacer key held with
      | Undefined => Some (inr None)
      | Null => Some (inr (Some Null))
      | Bool b => Some (inr (Some (Bool b)))
      | Str s => Some (inr (Some (Str s)))
      | Num (Finite q) => Some (inr (Some (Num (Finite q))))
      | Num _ => Some (inr (Some Null))
      | BigInt _ => Some (inl (JsError "Do not know how to serialize a BigInt"))
      | Arr items =>
          match SerializeJSONArray (SerializeJSONProperty fuel' replacer) 0 items with
          | None => None
          | Some (inl e) => Some (inl e)
          | Some (inr l) => Some (inr (Some (Arr l)))
          end
      | Obj fields =>
          match SerializeJSONObject (SerializeJSONProperty fuel' replacer) fields with
          | None => None
          | Some (inl e) => Some (inl e)
          | Some (inr l) => Some (inr (Some (Obj l)))
          end
      end
  end.

(** [JSON.stringify(v)] without a replacer. *)
Definition no_replacer (key : string) (v : value) : value := v.

(** [JSON.parse(JSON.stringify(v, replacer))]. For a value that
    serializes to nothing [JSON.stringify] returns [undefined], and
    [JSON.parse(undefined)] is a SyntaxError; its message differs between
    versions of the engine and is a parameter, [not_json]. *)
Definition parse_stringify (not_json : string) (fuel : nat)
    (replacer : string -> value -> value) (v : value) : option (exn + value) :=
  match SerializeJSONProperty fuel replacer "" v with
  | None => None
  | Some (inl e) => Some (inl e)
  | Some (inr None) => Some (inl (JsError not_json))
  | Some (inr (Some r)) => Some (inr r)
  end.

End Json.

(** ** The direct-call endpoint [POST /api/mcp] *)

Module Api.
Import Json.

(** The service functions the endpoint imports from [../core/services]. *)
Inductive service :=
| getBalance | getTransaction | getTransactionReceipt | getLatestBlock
| getBlockByNumber | getChainInfo | getSupportedNetworks | estimateGas
| getERC20Balance | getERC20TokenInfo | getERC721TokenMetadata
| getERC1155TokenURI | checkNFTOwnership | getNFTBalance
| getERC1155Balance | isContract | readContract.

(** What leaves the process while a request is handled. *)
Inductive call :=
| Backend (svc : service) (args : list value)
| Fetch (url : string).

(** The [Response] of [fetch], as far as the handler reads it. *)
Record fetch_response := {
  ok : bool;
  http_status : Z;
  statusText : string;
  json : exn + value
}.

(** Everything outside the repository: the backend services, the network
    and the built-ins whose results the handlers only pass along. *)
Record world := {
  backend : service -> list value -> exn + value;
  fetch : string -> exn + fetch_response;
  js_BigInt : value -> exn + Z;              (* BigInt(v) *)
  JSON_parse : string -> exn + value;        (* JSON.parse(s) *)
  undefined_not_json : string;               (* the message of JSON.parse(undefined) *)
  Number_toString : number -> string;        (* String(n) *)
  Number_of_string : string -> number;       (* Number(s) *)
  iso_of_seconds : number -> exn + string;   (* new Date(n * 1000).toISOString() *)
  now_iso : string                           (* new Date().toISOString() *)
}.

(** An HTTP reply: [res.status(status).json(body)]. *)
Record response := { status : Z; body : value }.

(** *** The handler monad: calls made so far, and a value or an exception *)

Definition M (A : Type) : Type := list call * (exn + A).

Definition ret {A} (a : A) : M A := ([], inr a).
Definition throw {A} (e : exn) : M A := ([], inl e).
Definition lift {A} (r : exn + A) : M A := ([], r).

Definition bind {A B} (m : M A) (k : A -> M B) : M B :=
  match m with
  | (c, inl e) => (c, inl e)
  | (c, inr a) => let '(c', r) := k a in (c ++ c', r)
  end.

(** [try { m } catch (e) { h e }] *)
Definition try_catch {A} (m : M A) (h : exn -> M A) : M A :=
  match m with
  | (c, inl e) => let '(c', r) := h e in (c ++ c', r)
  | (c, inr a) => (c, inr a)
  end.

Declare Scope handler_scope.
Delimit Scope handler_scope with handler.
Notation "'do' x <- m ; k" := (bind m (fun x => k))
  (at level 10, x name, m at level 100, k at level 200) : handler_scope.
Local Open Scope handler_scope.

(** The elements of [Array.prototype.join], converted by [rec]. *)
Section Join.
Variable rec : value -> exn + string.

Fixpoint join_items (items : list value) : exn + list string :=
  match items with
  | [] => inr []
  | x :: rest =>
      match (if nullish x then inr ""%string else rec x) with
      | inl e => inl e
      | inr text =>
          match join_items rest with
          | inl e => inl e
          | inr texts => inr (text :: texts)
          end
      end
  end.
End Join.

Section Handlers.
Variable w : world.

Definition await_backend (svc : service) (args : list value) : M value :=
  ([Backend svc args], backend w svc args).

Definition await_fetch (url : string) : M fetch_response :=
  ([Fetch url], fetch w url).

(** [String(v)], as in a template literal: the operation ToString. An
    array is joined, its [undefined] and [null] elements giving the empty
    string. An object is converted by its [toString] method: the inherited
    one gives "[object Object]"; an own property of that name, which in
    data is never a function, hides it, and the conversion ends in a
    TypeError (the message is V8's). *)
Fixpoint toString (v : value) : exn + string :=
  match v with
  | Undefined => inr "undefined"
  | Null => inr "null"
  | Bool true => inr "true"
  | Bool false => inr "false"
  | Num n => inr (Number_toString w n)
  | BigInt z => inr (Js.bigint_toString z)
  | Str s => inr s
  | Arr items =>
      match join_items toString items with
      | inl e => inl e
      | inr texts => inr (String.concat "," texts)
      end
  | Obj fields =>
      if has_own "toString" fields
      then inl (JsError "Cannot convert object to primitive value")
      else inr "[object Object]"
  end.

(** [error instanceof Error ? error.message : String(error)] *)
Definition describe (error : exn) : exn + string :=
  match error with
  | JsError message => inr message
  | Thrown v => toString v
  end.

(** [v?.toString()], where [callee] is the text of the callee in the
    source: the call of a property that is not a function is a TypeError. *)
Definition toString_opt (callee : string) (v : value) : exn + value :=
  match v with
  | Undefined | Null => inr Undefined
  | Obj fields =>
      if has_own "toString" fields
      then inl (JsError (callee +:+ " is not a function"))
      else inr (Str "[object Object]")
  | _ => match toString v with inl e => inl e | inr s => inr (Str s) end
  end.

(** [Number(v)] *)
Definition Number (v : value) : exn + number :=
  match v with
  | Undefined => inr NaN
  | Null => inr (Finite 0)
  | Bool b => inr (Finite (if b then 1 else 0))
  | Num n => inr n
  | BigInt z => inr (Number_of_bigint z)
  | Str s => inr (Number_of_string w s)
  | Arr _ | Obj _ =>
      match toString v with
      | inl e => inl e
      | inr s => inr (Number_of_string w s)
      end
  end.

(** [v.startsWith(prefix)]: only a string has the method. *)
Definition startsWith (v : value) (prefix : string) : exn + bool :=
  match v with
  | Str s => inr (String.prefix prefix s)
  | Undefined =>
      inl (JsError "Cannot read properties of undefined (reading 'startsWith')")
  | Null =>
      inl (JsError "Cannot read properties of null (reading 'startsWith')")
  | _ => inl (JsError "params.address.startsWith is not a function")
  end.

(** [params.network || 'sei'] *)
Definition network_of (params : value) : M value :=
  do n <- lift (get params "network"); ret (or_else n (Str "sei")).

(** [await svc(params.k1, ..., params.network || 'sei')] *)
Fixpoint read_args (params : value) (names : list string) : M (list value) :=
  match names with
  | [] => ret []
  | k :: rest =>
      do v <- lift (get params k);
      do vs <- read_args params rest;
      ret (v :: vs)
  end.

Definition call_with_network (svc : service) (names : list string)
    (params : value) : M value :=
  do args <- read_args params names;
  do n <- network_of params;
  await_backend svc (args ++ [n]).

(** [v === s] for a string literal [s] *)
Definition is_string (v : value) (s : string) : bool :=
  match v with Str s' => String.eqb s' s | _ => false end.

End Handlers.

(** A [switch (method)] over string literals, as the table of its cases:
    the first case whose label is strictly equal to [method] runs. *)
Fixpoint switch_on {A} (method : value) (cases : list (string * A)) (otherwise : A) : A :=
  match cases with
  | [] => otherwise
  | (label, handler) :: rest =>
      if is_string method label then handler else switch_on method rest otherwise
  end.

(** *** Variant of [src/server/http-server.ts] *)

Module HttpServer.
Section Endpoint.
Variable w : world.

Definition primary_api : string :=
  "https://rest.sei-apis.com/cosmos/bank/v1beta1/balances/".
Definition fallback_api : string :=
  "https://sei-api.polkachu.com/cosmos/bank/v1beta1/balances/".

(** [response = await fetch(url); if (!response.ok) throw ...;
    data = await response.json();] *)
Definition fetch_balances (base : string) (address : value) : M value :=
  do text <- lift (toString w address);
  do response <- await_fetch w (base +:+ text);
  if negb (ok response) then
    throw (JsError ("HTTP " +:+ Js.bigint_toString (http_status response)
                      +:+ ": " +:+ statusText response))
  else lift (json response).

Definition get_balance (params : value) : M value :=
  do address <- lift (get params "address");
  do sei1 <- lift (startsWith address "sei1");
  if sei1 then
    try_catch
      (do data <-
         try_catch (fetch_balances primary_api address)
           (fun primaryError =>
              do errorMessage <- lift (describe w primaryError);
              try_catch (fetch_balances fallback_api address)
                (fun fallbackError =>
                   do fallbackErrorMessage <- lift (describe w fallbackError);
                   throw primaryError));
       let balances := get_opt data "balances" in
       if truthy data && truthy balances then
         do n <- network_of params;
         ret (Obj [("address", address); ("balances", balances); ("network", n)])
       else throw (JsError "Invalid response format from REST API"))
      (fun restError =>
         do restErrorMessage <- lift (describe w restError);
         call_with_network w getBalance ["address"] params)
  else call_with_network w getBalance ["address"] params.

Definition estimate_gas (params : value) : M value :=
  do to <- lift (get params "to");
  do data <- lift (get params "data");
  do value <- lift (get params "value");
  do big <- lift (js_BigInt w (or_else value (Str "0")));
  let gasParams :=
    Obj [("to", to); ("data", or_else data (Str "0x")); ("value", BigInt big)] in
  do n <- network_of params;
  await_backend w estimateGas [gasParams; n].

Definition read_contract (params : value) : M value :=
  do abi <- lift (get params "abi");
  do parsedAbi <-
    lift (match abi with Str text => JSON_parse w text | _ => inr abi end);
  do address <- lift (get params "contractAddress");
  do functionName <- lift (get params "functionName");
  do args <- lift (get params "args");
  do n <- network_of params;
  await_backend w readContract
    [Obj [("address", address); ("abi", parsedAbi);
          ("functionName", functionName); ("args", or_else args (Arr []));
          ("network", n)]].

(** The cases of [switch (method)], in source order. *)
Definition cases (params : value) : list (string * M value) :=
  [ ("get_balance", get_balance params);
    ("get_transaction", call_with_network w getTransaction ["hash"] params);
    ("get_transaction_receipt",
       call_with_network w getTransactionReceipt ["hash"] params);
    ("get_latest_block", call_with_network w getLatestBlock [] params);
    ("get_block_by_number",
       call_with_network w getBlockByNumber ["blockNumber"] params);
    ("get_chain_info", call_with_network w getChainInfo [] params);
    ("get_supported_networks", await_backend w getSupportedNetworks []);
    ("estimate_gas", estimate_gas params);
    ("get_erc20_balance",
       call_with_network w getERC20Balance ["tokenAddress"; "address"] params);
    ("get_erc20_token_info",
       call_with_network w getERC20TokenInfo ["tokenAddress"] params);
    ("get_erc721_token_metadata",
       call_with_network w getERC721TokenMetadata ["tokenAddress"; "tokenId"] params);
    ("get_erc1155_token_uri",
       call_with_network w getERC1155TokenURI ["tokenAddress"; "tokenId"] params);
    ("check_nft_ownership",
       call_with_network w checkNFTOwnership
         ["tokenAddress"; "tokenId"; "ownerAddress"] params);
    ("get_nft_balance",
       call_with_network w getNFTBalance ["tokenAddress"; "ownerAddress"] params);
    ("get_erc1155_balance",
       call_with_network w getERC1155Balance
         ["tokenAddress"; "tokenId"; "ownerAddress"] params);
    ("is_contract", call_with_network w isContract ["address"] params);
    ("read_contract", read_contract params) ].

(** The names of the backend operations of this variant. *)
Definition methods : list string := List.map fst (cases Undefined).

(** [switch (method) { ... default: throw new Error(`Unknown method: ${method}`) }] *)
Definition dispatch (method params : value) : M value :=
  switch_on method (cases params)
    (do text <- lift (toString w method);
     throw (JsError ("Unknown method: " +:+ text))).

(** [(key, value) => typeof value === 'bigint' ? value.toString() : value] *)
Definition replacer (key : string) (v : value) : value :=
  match v with
  | BigInt z => Str (Js.bigint_toString z)
  | _ => v
  end.

(** [JSON.parse(JSON.stringify(result, replacer))]. The fuel is one more
    than the nesting depth of [result], which [serializedResult_fuel]
    shows to be enough: the last branch is never taken. *)
Definition serializedResult (result : value) : exn + value :=
  match parse_stringify (undefined_not_json w) (S (depth result)) replacer result with
  | Some r => r
  | None => inl (JsError "Maximum call stack size exceeded")
  end.

Definition rpc_error (id : value) (code : Z) (message : string) : value :=
  Obj [("jsonrpc", Str "2.0"); ("id", id);
       ("error", Obj [("code", num_of_Z code); ("message", Str message)])].

Definition rpc_result (id result : value) : value :=
  Obj [("jsonrpc", Str "2.0"); ("id", id); ("result", result)].

(** [app.post("/api/mcp", ...)]; [server] tells whether the MCP server
    is initialized, [req_body] is the object [express.json()] parsed. The
    handler is an [async] function: it ends with the reply it sent, or,
    when its [catch] block throws in turn, with a rejected promise and no
    reply. The [try] block converts the method to a string for a log line
    before and after the [switch], the [catch] block for its own log
    line. *)
Definition api_mcp (server : bool) (req_body : list (string * value)) : M response :=
  if negb server then
    ret {| status := 503;
           body := rpc_error (field "id" req_body) (-32002) "Server not initialized" |}
  else
    let method := field "method" req_body in
    let params := field "params" req_body in
    let id := field "id" req_body in
    try_catch
      (do logged <- lift (toString w method);
       do result <- dispatch method params;
       do logged <- lift (toString w method);
       do serialized <- lift (serializedResult result);
       ret {| status := 200; body := rpc_result id serialized |})
      (fun error =>
         do logged <- lift (toString w (field "method" req_body));
         ret {| status := 200;
                body := rpc_error (field "id" req_body) (-32603)
                          (message_or "Internal error" error) |}).
End Endpoint.
End HttpServer.

(** *** Variant of the second source file ([src/unnamed/part_000]) *)

Module Part000.
Section Endpoint.
Variable w : world.

Definition get_latest_block (params : value) : M value :=
  try_catch
    (do n <- network_of params;
     do block <- await_backend w getLatestBlock [n];
     do number <- lift (get block "number");
     do number <- lift (Number w number);
     do hash <- lift (get block "hash");
     do timestamp <- lift (get block "timestamp");
     do seconds <- lift (Number w timestamp);
     do iso <- lift (iso_of_seconds w seconds);
     do transactions <- lift (get block "transactions");
     do gasUsed <- lift (get block "gasUsed");
     do gasUsed <- lift (toString_opt w "block.gasUsed?.toString" gasUsed);
     do gasLimit <- lift (get block "gasLimit");
     do gasLimit <- lift (toString_opt w "block.gasLimit?.toString" gasLimit);
     do n' <- network_of params;
     ret (Obj [("number", Num number);
               ("hash", hash);
               ("timestamp", Str iso);
               ("transactions", or_else transactions (Arr []));
               ("gasUsed", or_else gasUsed (Str "0"));
               ("gasLimit", or_else gasLimit (Str "0"));
               ("network", n')]))
    (fun error =>
       ret (Obj [("error", Str "Failed to fetch latest block");
                 ("message", Str (message_or "Unknown error" error))])).

Definition get_transaction (params : value) : M value :=
  try_catch
    (do hash <- lift (get params "hash");
     if negb (truthy hash) then
       ret (Obj [("error", Str "Transaction hash is required")])
     else
       do n <- network_of params;
       do tx <- await_backend w getTransaction [hash; n];
       do receipt <-
         try_catch (call_with_network w getTransactionReceipt ["hash"] params)
           (fun receiptError => ret Undefined);
       do tx_hash <- lift (get tx "hash");
       do from <- lift (get tx "from");
       do to <- lift (get tx "to");
       do value <- lift (get tx "value");
       do value <- lift (toString_opt w "tx.value?.toString" value);
       do receiptGas <-
         lift (toString_opt w "receipt?.gasUsed?.toString" (get_opt receipt "gasUsed"));
       do gasUsed <-
         (if truthy receiptGas then ret receiptGas
          else
            do gas <- lift (toString_opt w "tx.gas?.toString" (get_opt tx "gas"));
            ret (or_else gas (Str "0")));
       do gasPrice <-
         lift (toString_opt w "tx.gasPrice?.toString" (get_opt tx "gasPrice"));
       do blockNumber <-
         lift (Number w (or_else (get_opt tx "blockNumber") (num_of_Z 0)));
       do n' <- network_of params;
       ret (Obj [("hash", tx_hash); ("from", from); ("to", to);
                 ("value", or_else value (Str "0"));
                 ("gasUsed", gasUsed);
                 ("gasPrice", or_else gasPrice (Str "0"));
                 ("blockNumber", Num blockNumber);
                 ("timestamp", Str (now_iso w));
                 ("status",
                    Str (if is_string (get_opt receipt "status") "success"
                         then "success" else "failed"));
                 ("network", n')]))
    (fun error =>
       ret (Obj [("error", Str "Failed to fetch transaction");
                 ("message", Str (message_or "Unknown error" error))])).

Definition cases (params : value) : list (string * M value) :=
  [ ("get_supported_networks", ret (Arr [Str "evm"; Str "native"]));
    ("get_balance",
       ret (Obj [("amount", Str "0"); ("denom", Str "sei");
                 ("formatted", Str "0 SEI")]));
    ("get_latest_block", get_latest_block params);
    ("get_transaction", get_transaction params) ].

Definition methods : list string := List.map fst (cases Undefined).

(** [default: result = { message: `Method ${method} received but not yet implemented` }] *)
Definition dispatch (method params : value) : M value :=
  switch_on method (cases params)
    (do text <- lift (toString w method);
     ret (Obj [("message",
                Str ("Method " +:+ text +:+ " received but not yet implemented"))])).

(** [JSON.stringify(response)], which throws on a BigInt. *)
Definition JSON_stringify (v : value) : exn + unit :=
  match SerializeJSONProperty (S (depth v)) no_replacer "" v with
  | Some (inl e) => inl e
  | _ => inr tt
  end.

Definition rpc_error (id : value) (code : Z) (message : string) : value :=
  Obj [("jsonrpc", Str "2.0"); ("id", or_else id Null);
       ("error", Obj [("code", num_of_Z code); ("message", Str message)])].

(** [app.post("/api/mcp", ...)] of the second file. Everything after the
    initialization check runs inside one [try]; its [catch] block sends the
    500 reply (what reaches it is an [Error], which its log line can always
    convert), so this handler always replies. The [try] block logs the
    method, converted to a string, before the [switch], and the reply,
    serialized, before sending it. *)
Definition api_mcp (server : bool) (req_body : list (string * value))
  : list call * response :=
  if negb server then
    ([], {| status := 503;
            body := rpc_error (field "id" req_body) (-32000) "Server not initialized" |})
  else
    let jsonrpc := field "jsonrpc" req_body in
    let id := field "id" req_body in
    let method := field "method" req_body in
    let params := field "params" req_body in
    if negb (is_string jsonrpc "2.0") then
      ([], {| status := 400; body := rpc_error id (-32600) "Invalid JSON-RPC version" |})
    else if negb (truthy method) then
      ([], {| status := 400; body := rpc_error id (-32600) "Missing method" |})
    else
      let attempt :=
        do logged <- lift (toString w method);
        do result <- dispatch method params;
        let response :=
          Obj [("jsonrpc", Str "2.0"); ("id", id); ("result", result)] in
        do logged <- lift (JSON_stringify response);
        ret {| status := 200; body := response |} in
      match attempt with
      | (calls, inr reply) => (calls, reply)
      | (calls, inl error) =>
          (calls,
            {| status := 500;
               body :=
                 Obj [("jsonrpc", Str "2.0");
                      ("id", or_else (field "id" req_body) Null);
                      ("error",
                         Obj [("code", num_of_Z (-32603));
                              ("message", Str "Internal error");
                              ("data", Str (message_or "Unknown error" error))])] |})
      end.
End Endpoint.
End Part000.
End Api.

(** ** Session registry, persistent streams and addressed messages

    The routes [GET /sse] and [POST /messages] are the same in both source
    files. *)

Module Server.

(** An [SSEServerTransport] object, identified by the number of the
    connection whose handler constructed it. *)
Abbreviation transport := nat (only parsing).

(** The promise returned by [server.connect(transport)]. *)
Inductive attachment := Pending | Attached | Failed.

(** A persistent connection whose [close] handler is registered. *)
Record stream := {
  sessionId : string;
  attach : attachment;
  closed : bool
}.

Inductive event :=
| RegistrySet (id : string) (t : transport)      (* connections.set(sessionId, transport) *)
| RegistryDelete (id : string)                   (* connections.delete(sessionId) *)
| Connect (t : transport)                        (* server.connect(transport) *)
| ConnectFulfilled (t : transport)
| ConnectRejected (t : transport)
| WriteSessionInit (t : transport) (id : string) (* res.write(session_init event) *)
| HandlePostMessage (t : transport)              (* transport.handlePostMessage(req, res) *)
| Reply (code : Z) (message : string)
| Closed (t : transport).

Record state := {
  server : bool;                          (* [server !== null] *)
  connections : gmap string transport;
  streams : list stream;
  trace : list event                      (* oldest first *)
}.

Definition init : state :=
  {| server := false; connections := ∅; streams := []; trace := [] |}.

(** How the synchronous part of the [GET /sse] handler ends: the [try]
    block runs through, or the constructor or [server.connect] throws
    and the [catch] block runs. *)
Inductive sync_outcome :=
| Proceeds
| ConstructorThrows (error : string)
| ConnectThrows (error : string).

(** What [transport.handlePostMessage] does, which is the SDK's affair. *)
Inductive handler_outcome :=
| Completes
| Rejects (message : string)
| Throws (message : string).

Inductive input :=
| Initialized                                        (* startServer() resolved *)
| GetSse (query : option string) (random : nat -> Q) (o : sync_outcome)
| ConnectSettled (t : transport) (fulfilled : bool)
| Close (t : transport)                              (* req.on("close") fires *)
| PostMessages (query : option string) (h : handler_outcome).

(** [let sessionId = req.query.sessionId?.toString();
     if (!sessionId) sessionId = generateSessionId();]
    where [query] is the value of [req.query.sessionId?.toString()]:
    [None] when the request has no such parameter. *)
Definition sse_session_id (query : option string) (random : nat -> Q) : string :=
  match query with
  | Some s => if Js.truthy_string s then s else IdGen.generateSessionId random
  | None => IdGen.generateSessionId random
  end.

Definition get_sse (st : state) (query : option string) (random : nat -> Q)
    (o : sync_outcome) : state :=
  if negb (server st) then
    {| server := server st; connections := connections st; streams := streams st;
       trace := trace st ++ [Reply 503 "Server not initialized"] |}
  else
    let id := sse_session_id query random in
    let t := length (streams st) in
    match o with
    | ConstructorThrows error =>
        {| server := server st;
           connections := delete id (connections st);
           streams := streams st;
           trace := trace st ++ [RegistryDelete id;
                                 Reply 500 ("Internal server error: " +:+ error)] |}
    | ConnectThrows error =>
        {| server := server st;
           connections := delete id (<[id := t]> (connections st));
           streams := streams st ++ [{| sessionId := id; attach := Failed; closed := false |}];
           trace := trace st ++ [RegistrySet id t; Connect t; RegistryDelete id;
                                 Reply 500 ("Internal server error: " +:+ error)] |}
    | Proceeds =>
        {| server := server st;
           connections := <[id := t]> (connections st);
           streams := streams st ++ [{| sessionId := id; attach := Pending; closed := false |}];
           trace := trace st ++ [RegistrySet id t; Connect t] |}
    end.

(** The [.then] and [.catch] callbacks on the promise of
    [server.connect(transport)]; a promise settles once. *)
Definition connect_settled (st : state) (t : transport) (fulfilled : bool) : state :=
  match streams st !! t with
  | Some {| sessionId := id; attach := Pending; closed := c |} =>
      if fulfilled then
        {| server := server st; connections := connections st;
           streams := <[t := {| sessionId := id; attach := Attached; closed := c |}]> (streams st);
           trace := trace st ++ [ConnectFulfilled t; WriteSessionInit t id] |}
      else
        {| server := server st; connections := delete id (connections st);
           streams := <[t := {| sessionId := id; attach := Failed; closed := c |}]> (streams st);
           trace := trace st ++ [ConnectRejected t; RegistryDelete id] |}
  | _ => st
  end.

(** The [req.on("close", ...)] callback; a request closes once. *)
Definition on_close (st : state) (t : transport) : state :=
  match streams st !! t with
  | Some {| sessionId := id; attach := a; closed := false |} =>
      {| server := server st; connections := delete id (connections st);
         streams := <[t := {| sessionId := id; attach := a; closed := true |}]> (streams st);
         trace := trace st ++ [Closed t; RegistryDelete id] |}
  | _ => st
  end.

(** [Array.from(connections.keys())[0]]. A JS [Map] lists its keys in
    insertion order; the handler reads the first key only when the map
    has one entry, where the order plays no part. *)
Definition first_key (m : gmap string transport) : option string :=
  head (List.map fst (map_to_list m)).

(** The value of [sessionId] after
    [if (!sessionId && connections.size === 1) sessionId = ...keys()[0]]. *)
Definition effective_id (st : state) (query : option string) : option string :=
  if negb (Js.truthy query) && Nat.eqb (size (connections st)) 1
  then first_key (connections st)
  else query.

Inductive dispatch_result :=
| Rejected (code : Z) (error : string) (activeConnections : option nat)
| Forwarded (id : string) (t : transport).

Definition no_session_id : string :=
  "No session ID provided. Please provide a sessionId query parameter or connect to /sse first.".

(** The [POST /messages] handler up to the call of the session's handler. *)
Definition post_messages (st : state) (query : option string) : dispatch_result :=
  let sessionId := effective_id st query in
  if negb (server st) then Rejected 503 "Server not initialized" None
  else
    match sessionId with
    | Some id =>
        if negb (Js.truthy_string id) then
          Rejected 400 no_session_id (Some (size (connections st)))
        else
          match connections st !! id with
          | None => Rejected 404 "Session not found" None
          | Some t => Forwarded id t
          end
    | None => Rejected 400 no_session_id (Some (size (connections st)))
    end.

Definition post_events (r : dispatch_result) (h : handler_outcome) : list event :=
  match r with
  | Rejected code error _ => [Reply code error]
  | Forwarded _ t =>
      HandlePostMessage t ::
      match h with
      | Completes => []
      | Rejects m | Throws m => [Reply 500 ("Internal server error: " +:+ m)]
      end
  end.

Definition step (st : state) (i : input) : state :=
  match i with
  | Initialized =>
      {| server := true; connections := connections st; streams := streams st;
         trace := trace st |}
  | GetSse query random o => get_sse st query random o
  | ConnectSettled t fulfilled => connect_settled st t fulfilled
  | Close t => on_close st t
  | PostMessages query h =>
      {| server := server st; connections := connections st; streams := streams st;
         trace := trace st ++ post_events (post_messages st query) h |}
  end.

Definition run (inputs : list input) : state := fold_left step inputs init.

(** A stream is live while its connection is open. *)
Definition open_streams (st : state) : nat :=
  length (List.filter (fun s => negb (closed s)) (streams st)).

(** [handlePostMessage] was invoked by the reply computed for a request. *)
Definition invokes_handler (r : dispatch_result) : bool :=
  match r with Forwarded _ _ => true | Rejected _ _ _ => false end.

(** *** The order of the [Map]

    A JS [Map] lists its entries in insertion order, which the finite map
    of the state does not record. The order is determined by the calls of
    [connections.set] and [connections.delete], which the trace has:
    [set] on a key that is present replaces the value where the entry
    stands, [set] on a new key appends an entry, [delete] removes the
    entry. *)
Fixpoint map_set (id : string) (t : transport) (entries : list (string * transport))
  : list (string * transport) :=
  match entries with
  | [] => [(id, t)]
  | (k, v) :: rest =>
      if String.eqb k id then (k, t) :: rest else (k, v) :: map_set id t rest
  end.

Definition map_delete (id : string) (entries : list (string * transport))
  : list (string * transport) :=
  List.filter (fun kv => negb (String.eqb (fst kv) id)) entries.

Definition registry_call (entries : list (string * transport)) (e : event)
  : list (string * transport) :=
  match e with
  | RegistrySet id t => map_set id t entries
  | RegistryDelete id => map_delete id entries
  | _ => entries
  end.

(** The entries of [connections], in the order of the [Map], after the
    calls recorded in a trace. *)
Definition entries_after (tr : list event) : list (string * transport) :=
  fold_left registry_call tr [].

End Server.

(** ** Routing and the informational endpoints *)

Module Info.
Import Json.

Inductive verb := GET | POST.

(** The route handlers, named after what they serve: [HealthStatus] is the
    first [/health] handler of [http-server.ts], [Health] the handler that
    reports the registry (the only one of the second file). *)
Inductive handler := ApiMcp | HealthStatus | Sse | Messages | Health | Root.

(** The [app.get] and [app.post] registrations, in source order. *)
Definition routes_http_server : list (verb * string * handler) :=
  [(POST, "/api/mcp", ApiMcp); (GET, "/health", HealthStatus); (GET, "/sse", Sse);
   (POST, "/messages", Messages); (GET, "/health", Health); (GET, "/", Root)]%string.

Definition routes_part_000 : list (verb * string * handler) :=
  [(GET, "/sse", Sse); (POST, "/messages", Messages); (GET, "/health", Health);
   (POST, "/api/mcp", ApiMcp); (GET, "/", Root)]%string.

Definition verb_eqb (a b : verb) : bool :=
  match a, b with GET, GET | POST, POST => true | _, _ => false end.

(** Express runs the first registered route whose verb and path pattern
    match the request; none of the handlers calls [next()]. How a pattern
    matches a request path is Express's affair: [matches pattern path]. *)
Fixpoint route (matches : string -> string -> bool)
    (table : list (verb * string * handler)) (v : verb) (path : string)
  : option handler :=
  match table with
  | [] => None
  | (v', pattern, h) :: rest =>
      if verb_eqb v v' && matches pattern path then Some h
      else route matches rest v path
  end.

(** [Array.from(connections.keys())]: the keys in the order of the
    [Map]. *)
Definition session_ids (st : Server.state) : list string :=
  List.map fst (Server.entries_after (Server.trace st)).

Definition count (m : gmap string nat) : value := num_of_Z (Z.of_nat (size m)).

(** [app.get("/", ...)]; [endpoints] is the literal of the file. *)
Definition root (endpoints : list (string * value)) (st : Server.state) : Api.response :=
  {| Api.status := 200;
     Api.body :=
       Obj [("name", Str "MCP Server"); ("version", Str "1.0.0");
            ("endpoints", Obj endpoints);
            ("status", Str (if Server.server st then "ready" else "initializing"));
            ("activeConnections", count (Server.connections st))] |}.

Definition endpoints_http_server : list (string * value) :=
  [("sse", Str "/sse"); ("messages", Str "/messages"); ("health", Str "/health")].

Definition endpoints_part_000 : list (string * value) :=
  endpoints_http_server ++ [("api", Str "/api/mcp")].

(** The [/health] handler that reports the registry. *)
Definition health (st : Server.state) : Api.response :=
  {| Api.status := 200;
     Api.body :=
       Obj [("status", Str "ok");
            ("server", Str (if Server.server st then "initialized" else "initializing"));
            ("activeConnections", count (Server.connections st));
            ("connectedSessionIds",
               Arr (List.map Str (session_ids st)))] |}.

(** The first [/health] handler of [http-server.ts]; the clock and the
    process uptime come from outside. *)
Definition health_status (timestamp : string) (uptime : number) (st : Server.state)
  : Api.response :=
  {| Api.status := 200;
     Api.body :=
       Obj [("status", Str "healthy"); ("timestamp", Str timestamp);
            ("server", Str "SEI MCP Server"); ("version", Str "1.0.0");
            ("uptime", Num uptime);
            ("endpoints",
               Obj [("sse", Str "/sse"); ("mcp", Str "/api/mcp");
                    ("health", Str "/health")]);
            ("serverInitialized", Bool (Server.server st))] |}.

End Info.

(** ** Invariants, the specification's wording, and sample runs

    What the properties below are stated with: the invariants of the
    reachable states, the reading of the specification where it describes a
    result, and the concrete requests used as witnesses. *)

Section Statements.
Import Server Json Api.

(** The callback returns one character: a hex digit for [x], one of
    [8 9 a b] for [y]. *)
Definition nibble_ok (c d : ascii) : Prop :=
  if Ascii.eqb c "x" then IdGen.is_hex d = true else IdGen.is_variant d = true.

(** Every entry of the registry points at the transport of a stream that
    was opened under the entry's identifier, whose connection is still
    open and whose attachment has not failed; nothing is registered
    before the server is initialized; identifiers are non-empty. *)
Definition registry_ok (st : state) : Prop :=
  (server st = false -> connections st = ∅ /\ streams st = []) /\
  (forall id t, connections st !! id = Some t ->
     exists s, streams st !! t = Some s /\ sessionId s = id /\
               closed s = false /\ attach s <> Failed) /\
  (forall t s, streams st !! t = Some s -> Js.truthy_string (sessionId s) = true).

(** Counting the open streams by their indices. *)
Definition open_at (l : list stream) (t : nat) : bool :=
  match l !! t with Some s => negb (closed s) | None => false end.

(** Every occurrence of [e] in the trace has an event satisfying [P]
    somewhere before it. *)
Definition precedes (P : event -> Prop) (e : event) (tr : list event) : Prop :=
  forall before after, tr = before ++ e :: after -> exists x, In x before /\ P x.

Definition trace_ok (st : state) : Prop :=
  (forall t, precedes (fun x => exists id, x = RegistrySet id t) (Connect t) (trace st)) /\
  (forall t, precedes (fun x => x = Connect t) (ConnectFulfilled t) (trace st)) /\
  (forall t id,
     precedes (fun x => x = ConnectFulfilled t) (WriteSessionInit t id) (trace st)) /\
  (forall t id, In (WriteSessionInit t id) (trace st) ->
     exists s, streams st !! t = Some s /\ attach s = Attached /\ sessionId s = id) /\
  (forall t s, streams st !! t = Some s -> In (Connect t) (trace st)).

(** The registry after the calls recorded in a trace, as a finite map. *)
Definition registry_after (tr : list event) : gmap string nat :=
  list_to_map (entries_after tr).

(** The trace accounts for the registry: replaying its [set] and [delete]
    calls gives the registry of the state, each key once. *)
Definition order_ok (st : state) : Prop :=
  registry_after (trace st) = connections st /\
  NoDup (List.map fst (entries_after (trace st))).


(** The specification's wording: every BigInt of a value replaced by its
    decimal string, everything else left as it is. *)
Fixpoint coerce_bigints (v : value) : value :=
  match v with
  | BigInt z => Str (Js.bigint_toString z)
  | Arr items => Arr (List.map coerce_bigints items)
  | Obj fields => Obj (List.map (fun kv => (fst kv, coerce_bigints (snd kv))) fields)
  | _ => v
  end.

End Statements.

Definition any_random : nat -> Q := fun k => Z.of_nat k * 7 mod 97 # 97.

(** Two clients open a stream under the same identifier. *)
Definition colliding_opens : list Server.input :=
  [Server.Initialized;
   Server.GetSse (Some "abc"%string) any_random Server.Proceeds;
   Server.GetSse (Some "abc"%string) any_random Server.Proceeds].

Definition one_open : list Server.input :=
  [Server.Initialized;
   Server.GetSse (Some "abc"%string) any_random Server.Proceeds].

(** Two streams under one identifier, then the earlier one closes: its
    close handler deletes the entry the later stream had registered. *)
Definition collide_then_close_first : list Server.input :=
  colliding_opens ++ [Server.Close 0%nat].


(** A world whose chain has one block and one funded account. *)
Definition sample_block : Json.value :=
  Json.Obj [("number", Json.BigInt 9007199254740993);
            ("hash", Json.Str "0xabc");
            ("timestamp", Json.BigInt 1700000000);
            ("transactions", Json.Arr []);
            ("gasUsed", Json.BigInt 21000);
            ("gasLimit", Json.BigInt 30000000)].

Definition sample_balance : Json.value :=
  Json.Obj [("wei", Json.BigInt (2 ^ 70)); ("ether", Json.Str "1180.591620717411303424")].

(** [text] between double quotes. *)
Definition quoted (text : string) : string :=
  String (ascii_of_nat 34) (text +:+ String (ascii_of_nat 34) EmptyString).

Definition sample_world : Api.world :=
  {| Api.backend := fun svc args =>
       match svc with
       | Api.getLatestBlock => inr sample_block
       | Api.getBalance => inr sample_balance
       | Api.getSupportedNetworks => inr (Json.Arr [Json.Str "sei"])
       | _ => inl (Json.JsError "not found")
       end;
     Api.fetch := fun url => inl (Json.JsError "fetch failed");
     Api.js_BigInt := fun v => inr 0;
     Api.JSON_parse := fun text => inl (Json.JsError "Unexpected end of JSON input");
     Api.undefined_not_json := quoted "undefined" +:+ " is not valid JSON";
     Api.Number_toString := fun n => "0"%string;
     Api.Number_of_string := fun s => Json.NaN;
     Api.iso_of_seconds := fun n => inr "2023-11-14T22:13:20.000Z"%string;
     Api.now_iso := "2023-11-14T22:13:20.000Z" |}.

Definition envelope (version method : string) (params : Json.value)
  : list (string * Json.value) :=
  [("jsonrpc", Json.Str version); ("id", Json.num_of_Z 1);
   ("method", Json.Str method); ("params", params)].

(** A body whose method is an object that hides [toString]: the JSON text
    [{"jsonrpc":"2.0","id":1,"method":{"toString":1}}]. *)
Definition unprintable_method : list (string * Json.value) :=
  [("jsonrpc", Json.Str "2.0"); ("id", Json.num_of_Z 1);
   ("method", Json.Obj [("toString", Json.num_of_Z 1)])].

(** Three streams opened under the identifiers zz, b and a, in this
    order. *)
Definition opens_zz_b : list Server.input :=
  [Server.Initialized;
   Server.GetSse (Some "zz"%string) any_random Server.Proceeds;
   Server.GetSse (Some "b"%string) any_random Server.Proceeds].

(** A request to [POST /messages], whatever its query and outcome. *)
Definition is_post (i : Server.input) : Prop :=
  match i with Server.PostMessages _ _ => True | _ => False end.

Definition exact_path (pattern path : string) : bool := String.eqb pattern path.

(** The cases of [http-server.ts] that only read fields of [params] and
    pass them, followed by the network, to one service function: the method
    name, the function and the fields in argument order. *)
Definition network_operations : list (string * Api.service * list string) :=
  [("get_transaction", Api.getTransaction, ["hash"]);
   ("get_transaction_receipt", Api.getTransactionReceipt, ["hash"]);
   ("get_latest_block", Api.getLatestBlock, []);
   ("get_block_by_number", Api.getBlockByNumber, ["blockNumber"]);
   ("get_chain_info", Api.getChainInfo, []);
   ("get_erc20_balance", Api.getERC20Balance, ["tokenAddress"; "address"]);
   ("get_erc20_token_info", Api.getERC20TokenInfo, ["tokenAddress"]);
   ("get_erc721_token_metadata", Api.getERC721TokenMetadata, ["tokenAddress"; "tokenId"]);
   ("get_erc1155_token_uri", Api.getERC1155TokenURI, ["tokenAddress"; "tokenId"]);
   ("check_nft_ownership", Api.checkNFTOwnership,
      ["tokenAddress"; "tokenId"; "ownerAddress"]);
   ("get_nft_balance", Api.getNFTBalance, ["tokenAddress"; "ownerAddress"]);
   ("get_erc1155_balance", Api.getERC1155Balance,
      ["tokenAddress"; "tokenId"; "ownerAddress"]);
   ("is_contract", Api.isContract, ["address"])]%string.

(** The reply of [http-server.ts] to a call whose backend operation ended
    with [outcome]. *)
Definition reply_for (w : Api.world) (id : Json.value)
    (outcome : Json.exn + Json.value) : Api.response :=
  match outcome with
  | inl e =>
      {| Api.status := 200;
         Api.body := Api.HttpServer.rpc_error id (-32603)
                       (Json.message_or "Internal error" e) |}
  | inr v =>
      match Api.HttpServer.serializedResult w v with
      | inr r => {| Api.status := 200; Api.body := Api.HttpServer.rpc_result id r |}
      | inl e =>
          {| Api.status := 200;
             Api.body := Api.HttpServer.rpc_error id (-32603)
                           (Json.message_or "Internal error" e) |}
      end
  end.

(** The 500 reply of the second variant, sent by the [catch] block of its
    handler. *)
Definition internal_error (id : Json.value) (data : string) : Api.response :=
  {| Api.status := 500;
     Api.body :=
       Json.Obj [("jsonrpc", Json.Str "2.0"); ("id", Json.or_else id Json.Null);
                 ("error",
                    Json.Obj [("code", Json.num_of_Z (-32603));
                              ("message", Json.Str "Internal error");
                              ("data", Json.Str data)])] |}.

Definition is_fetch (c : Api.call) : Prop :=
  match c with Api.Fetch _ => True | Api.Backend _ _ => False end.

(** A world whose REST endpoints answer with one balance. *)
Definition rest_world : Api.world :=
  {| Api.backend := Api.backend sample_world;
     Api.fetch := fun url =>
       inr {| Api.ok := true; Api.http_status := 200; Api.statusText := "OK";
              Api.json :=
                inr (Json.Obj [("balances",
                                Json.Arr [Json.Obj [("denom", Json.Str "usei");
                                                    ("amount", Json.Str "42")]])]) |};
     Api.js_BigInt := Api.js_BigInt sample_world;
     Api.JSON_parse := Api.JSON_parse sample_world;
     Api.undefined_not_json := Api.undefined_not_json sample_world;
     Api.Number_toString := Api.Number_toString sample_world;
     Api.Number_of_string := Api.Number_of_string sample_world;
     Api.iso_of_seconds := Api.iso_of_seconds sample_world;
     Api.now_iso := Api.now_iso sample_world |}.

(** A world whose blocks carry a BigInt hash. *)
Definition bigint_hash_world : Api.world :=
  {| Api.backend := fun svc args =>
       inr (Json.Obj [("number", Json.BigInt 7); ("hash", Json.BigInt 255);
                      ("timestamp", Json.BigInt 1700000000)]);
     Api.fetch := Api.fetch sample_world;
     Api.js_BigInt := Api.js_BigInt sample_world;
     Api.JSON_parse := Api.JSON_parse sample_world;
     Api.undefined_not_json := Api.undefined_not_json sample_world;
     Api.Number_toString := Api.Number_toString sample_world;
     Api.Number_of_string := Api.Number_of_string sample_world;
     Api.iso_of_seconds := Api.iso_of_seconds sample_world;
     Api.now_iso := Api.now_iso sample_world |}.

(** A world whose node cannot be reached. *)
Definition failing_world : Api.world :=
  {| Api.backend := fun svc args => inl (Json.JsError "node unreachable");
     Api.fetch := Api.fetch sample_world;
     Api.js_BigInt := Api.js_BigInt sample_world;
     Api.JSON_parse := Api.JSON_parse sample_world;
     Api.undefined_not_json := Api.undefined_not_json sample_world;
     Api.Number_toString := Api.Number_toString sample_world;
     Api.Number_of_string := Api.Number_of_string sample_world;
     Api.iso_of_seconds := Api.iso_of_seconds sample_world;
     Api.now_iso := Api.now_iso sample_world |}.

(** A world that knows one transaction and no receipt. *)
Definition receiptless_world : Api.world :=
  {| Api.backend := fun svc args =>
       match svc with
       | Api.getTransaction =>
           inr (Json.Obj [("hash", Json.Str "0x01"); ("gas", Json.BigInt 21000)])
       | _ => inl (Json.JsError "receipt not found")
       end;
     Api.fetch := Api.fetch sample_world;
     Api.js_BigInt := Api.js_BigInt sample_world;
     Api.JSON_parse := Api.JSON_parse sample_world;
     Api.undefined_not_json := Api.undefined_not_json sample_world;
     Api.Number_toString := Api.Number_toString sample_world;
     Api.Number_of_string := Api.Number_of_string sample_world;
     Api.iso_of_seconds := Api.iso_of_seconds sample_world;
     Api.now_iso := Api.now_iso sample_world |}.

(** A world whose backend operations resolve to [undefined]. *)
Definition silent_world : Api.world :=
  {| Api.backend := fun svc args => inr Json.Undefined;
     Api.fetch := Api.fetch sample_world;
     Api.js_BigInt := Api.js_BigInt sample_world;
     Api.JSON_parse := Api.JSON_parse sample_world;
     Api.undefined_not_json := Api.undefined_not_json sample_world;
     Api.Number_toString := Api.Number_toString sample_world;
     Api.Number_of_string := Api.Number_of_string sample_world;
     Api.iso_of_seconds := Api.iso_of_seconds sample_world;
     Api.now_iso := Api.now_iso sample_world |}.

(** The calls of the callback that [replace_xy] makes on [s], in order:
    the matched character and the number of the call. *)
Fixpoint callback_calls (s : string) (k : nat) : list (ascii * nat) :=
  match s with
  | EmptyString => []
  | String c s' =>
      if IdGen.is_xy c then (c, k) :: callback_calls s' (S k)
      else callback_calls s' k
  end.

(** * Properties *)

(** ** The identifier generator *)

Lemma ToInt32_small (q : Q) :
  (0 <= q)%Q -> (q < 16)%Q -> 0 <= Js.ToInt32 q < 16.
Proof.
  intros H0 H16. unfold Js.ToInt32.
  destruct q as [n d]. unfold Qle, Qlt in *. simpl in *.
  assert (Hn : 0 <= n) by lia.
  assert (Hq : 0 <= n ÷ Z.pos d < 16).
  { rewrite Z.quot_div_nonneg by lia. split.
    - apply Z.div_pos; lia.
    - apply Z.div_lt_upper_bound; lia. }
  rewrite Z.mod_small by lia.
  destruct (Z.leb_spec (2 ^ 31) (n ÷ Z.pos d)); lia.
Qed.

Lemma draw_range (random : nat -> Q) (k : nat) :
  (0 <= random k)%Q -> (random k < 1)%Q -> 0 <= IdGen.draw random k < 16.
Proof.
  intros H0 H1. unfold IdGen.draw, Js.bitor0.
  apply ToInt32_small; destruct (random k) as [n d];
    unfold Qle, Qlt, Qmult in *; simpl in *; lia.
Qed.

Lemma below_16_cases (v : Z) :
  0 <= v < 16 ->
  In v [0; 1; 2; 3; 4; 5; 6; 7; 8; 9; 10; 11; 12; 13; 14; 15].
Proof.
  intros H. simpl.
  assert (v = 0 \/ v = 1 \/ v = 2 \/ v = 3 \/ v = 4 \/ v = 5 \/ v = 6 \/ v = 7 \/
          v = 8 \/ v = 9 \/ v = 10 \/ v = 11 \/ v = 12 \/ v = 13 \/ v = 14 \/ v = 15)
    by lia.
  intuition.
Qed.

Lemma callback_nibble (random : nat -> Q) (c : ascii) (k : nat) :
  (0 <= random k)%Q -> (random k < 1)%Q ->
  exists d, IdGen.callback random c k = String d "" /\ nibble_ok c d.
Proof.
  intros H0 H1. pose proof (draw_range random k H0 H1) as Hr.
  unfold IdGen.callback, nibble_ok.
  apply below_16_cases in Hr. simpl in Hr.
  destruct (Ascii.eqb c "x");
    repeat (destruct Hr as [Hr | Hr];
            [rewrite <- Hr; eexists; split; reflexivity |]);
    contradiction.
Qed.

Lemma replace_xy_pointwise (f : ascii -> nat -> string) (P : ascii -> ascii -> Prop)
    (s : string) :
  (forall c j, exists d, f c j = String d "" /\ P c d) ->
  forall k,
    Forall2 (fun c d => if IdGen.is_xy c then P c d else d = c)
      (list_ascii_of_string s)
      (list_ascii_of_string (IdGen.replace_xy f s k)).
Proof.
  intros Hf. induction s as [| c s IH]; intros k; simpl.
  - constructor.
  - destruct (IdGen.is_xy c) eqn:Hc.
    + destruct (Hf c k) as (d & -> & Hd). simpl.
      constructor; [rewrite Hc; exact Hd | apply IH].
    + simpl. constructor; [rewrite Hc; reflexivity | apply IH].
Qed.

(** The literal characters of the template survive whatever the random
    source returns, so an identifier is never the empty string. *)
Lemma replace_xy_nonempty (f : ascii -> nat -> string) (s : string) (k : nat) :
  (exists c, In c (list_ascii_of_string s) /\ IdGen.is_xy c = false) ->
  IdGen.replace_xy f s k <> EmptyString.
Proof.
  revert k. induction s as [| c s IH]; intros k (c0 & Hin & Hc0); simpl in *.
  - contradiction.
  - destruct (IdGen.is_xy c) eqn:Hc.
    + destruct Hin as [-> | Hin]; [congruence |].
      intros Happ. destruct (f c k); simpl in Happ; [| discriminate].
      revert Happ. apply IH. eauto.
    + discriminate.
Qed.

Lemma generateSessionId_truthy (random : nat -> Q) :
  Js.truthy_string (IdGen.generateSessionId random) = true.
Proof.
  assert (H : IdGen.generateSessionId random <> EmptyString).
  { apply replace_xy_nonempty. exists "-"%char. split; [| reflexivity].
    simpl. tauto. }
  destruct (IdGen.generateSessionId random); [congruence | reflexivity].
Qed.

Lemma string_length_chars (s : string) :
  String.length s = length (list_ascii_of_string s).
Proof. induction s; simpl; congruence. Qed.

(** C9. Whatever values in [0,1) [Math.random()] returns, the generated
    identifier has 36 characters in the 8-4-4-4-12 hyphenated layout, the
    version nibble is [4], the variant nibble is one of [8 9 a b], and every
    other position holds a lower-case hex digit. *)
Theorem generateSessionId_shape (random : nat -> Q) :
  (forall k, (0 <= random k)%Q /\ (random k < 1)%Q) ->
  IdGen.uuid_v4_shape (IdGen.generateSessionId random) = true.
Proof.
  intros Hrand.
  assert (H : Forall2 (fun c d => if IdGen.is_xy c then nibble_ok c d else d = c)
                (list_ascii_of_string IdGen.template)
                (list_ascii_of_string (IdGen.generateSessionId random))).
  { apply replace_xy_pointwise.
    intros c j. apply callback_nibble; apply Hrand. }
  unfold IdGen.uuid_v4_shape. rewrite string_length_chars.
  remember (list_ascii_of_string (IdGen.generateSessionId random)) as out eqn:Hout.
  clear Hout. simpl in H.
  repeat match goal with
         | H : Forall2 _ (_ :: _) _ |- _ => inversion H; subst; clear H
         | H : Forall2 _ [] _ |- _ => inversion H; subst; clear H
         end.
  unfold nibble_ok in *. simpl in *. subst.
  unfold IdGen.position_ok. simpl.
  repeat match goal with
         | H : IdGen.is_hex _ = true |- _ => rewrite H; clear H
         | H : IdGen.is_variant _ = true |- _ => rewrite H; clear H
         end.
  reflexivity.
Qed.

Lemma generateSessionId_shape_witness :
  IdGen.uuid_v4_shape (IdGen.generateSessionId (fun k => Z.of_nat k * 7 mod 97 # 97)) = true.
Proof.
  apply (generateSessionId_shape (fun k => Z.of_nat k * 7 mod 97 # 97)).
  intros k. unfold Qle, Qlt. simpl.
  pose proof (Z.mod_pos_bound (Z.of_nat k * 7) 97). lia.
Defined.

(** ** The session registry: what holds in every reachable state *)

Section RegistryInvariant.
Import Server.

Lemma sse_session_id_truthy query random :
  Js.truthy_string (sse_session_id query random) = true.
Proof.
  unfold sse_session_id.
  destruct query as [s |]; [destruct (Js.truthy_string s) eqn:E |];
    auto using generateSessionId_truthy.
Qed.

Lemma lookup_snoc_Some {A} (l : list A) (x y : A) (i : nat) :
  (l ++ [x]) !! i = Some y -> l !! i = Some y \/ (i = length l /\ y = x).
Proof.
  intros H. destruct (decide (i < length l)%nat) as [Hlt | Hge].
  - rewrite lookup_app_l in H by exact Hlt. auto.
  - rewrite lookup_app_r in H by lia.
    destruct (i - length l)%nat as [| n] eqn:E; simpl in H.
    + right. split; [lia | congruence].
    + destruct n; discriminate.
Qed.

Lemma lookup_insert_stream (l : list stream) (t t' : nat) (s s' : stream) :
  <[t := s]> l !! t' = Some s' ->
  (t' = t /\ s' = s) \/ (t' <> t /\ l !! t' = Some s').
Proof.
  intros H. destruct (decide (t' = t)) as [-> | Hne].
  - left. split; [reflexivity |].
    assert (t < length l)%nat.
    { apply lookup_lt_Some in H. rewrite length_insert in H. exact H. }
    rewrite list_lookup_insert_eq in H by assumption. congruence.
  - right. rewrite list_lookup_insert_ne in H by congruence. auto.
Qed.

Lemma registry_ok_init : registry_ok init.
Proof.
  split; [| split]; simpl; intros; try discriminate. auto.
Qed.

(** Deleting the identifier of stream [t] and changing only the status of
    that stream keeps the invariant. *)
Lemma registry_ok_retire st t id a c a' c' tr :
  registry_ok st ->
  streams st !! t = Some {| sessionId := id; attach := a; closed := c |} ->
  registry_ok
    {| server := server st; connections := delete id (connections st);
       streams := <[t := {| sessionId := id; attach := a'; closed := c' |}]> (streams st);
       trace := tr |}.
Proof.
  intros (H0 & H1 & H2) Ht. split; [| split]; simpl.
  - intros Hs. destruct (H0 Hs) as [_ Hnil]. rewrite Hnil in Ht. discriminate.
  - intros id' t' Hl. apply lookup_delete_Some in Hl as [Hne Hl].
    destruct (H1 _ _ Hl) as (s & Hs & Hid & Hc & Ha).
    destruct (decide (t' = t)) as [-> | Hnt].
    + rewrite Ht in Hs. injection Hs as <-. simpl in Hid. congruence.
    + exists s. rewrite list_lookup_insert_ne by congruence. auto.
  - intros t' s' Hl. apply lookup_insert_stream in Hl as [[-> ->] | [_ Hl]].
    + simpl. exact (H2 _ _ Ht).
    + exact (H2 _ _ Hl).
Qed.

Lemma registry_ok_step st i : registry_ok st -> registry_ok (step st i).
Proof.
  intros Hok. pose proof Hok as (H0 & H1 & H2).
  destruct i as [| query random o | t fulfilled | t | query h]; simpl.
  - (* Initialized *)
    split; [| split]; simpl; auto; discriminate.
  - (* GetSse *)
    unfold get_sse. destruct (negb (server st)) eqn:Hsrv; [exact Hok |].
    apply negb_false_iff in Hsrv.
    set (id := sse_session_id query random).
    destruct o; (split; [| split]); simpl; try congruence.
    + intros id' t' Hl. destruct (decide (id' = id)) as [-> | Hne].
      * rewrite lookup_insert_eq in Hl. injection Hl as <-.
        eexists. split; [apply list_lookup_middle; reflexivity |].
        simpl. repeat split; congruence.
      * rewrite lookup_insert_ne in Hl by congruence.
        destruct (H1 _ _ Hl) as (s & Hs & Hrest).
        exists s. split; [| exact Hrest].
        rewrite lookup_app_l; [exact Hs | eapply lookup_lt_Some; exact Hs].
    + intros t' s' Hl. apply lookup_snoc_Some in Hl as [Hl | [_ ->]].
      * exact (H2 _ _ Hl).
      * apply sse_session_id_truthy.
    + intros id' t' Hl. apply lookup_delete_Some in Hl as [_ Hl]. exact (H1 _ _ Hl).
    + exact H2.
    + intros id' t' Hl. apply lookup_delete_Some in Hl as [Hne Hl].
      rewrite lookup_insert_ne in Hl by congruence.
      destruct (H1 _ _ Hl) as (s & Hs & Hrest).
      exists s. split; [| exact Hrest].
      rewrite lookup_app_l; [exact Hs | eapply lookup_lt_Some; exact Hs].
    + intros t' s' Hl. apply lookup_snoc_Some in Hl as [Hl | [_ ->]].
      * exact (H2 _ _ Hl).
      * apply sse_session_id_truthy.
  - (* ConnectSettled *)
    unfold connect_settled.
    destruct (streams st !! t) as [[id [] c] |] eqn:Ht; try exact Hok.
    destruct fulfilled.
    + split; [| split]; simpl.
      * intros Hs. apply H0 in Hs as [_ Hs]. rewrite Hs in Ht. discriminate.
      * intros id' t' Hl. destruct (H1 _ _ Hl) as (s & Hs & Hid & Hc & Ha).
        destruct (decide (t' = t)) as [-> | Hnt].
        -- rewrite Ht in Hs. injection Hs as <-. simpl in *.
           eexists. split.
           ++ apply list_lookup_insert_eq. eapply lookup_lt_Some; exact Ht.
           ++ simpl. repeat split; congruence.
        -- exists s. rewrite list_lookup_insert_ne by congruence. auto.
      * intros t' s' Hl. apply lookup_insert_stream in Hl as [[-> ->] | [_ Hl]].
        -- exact (H2 _ _ Ht).
        -- exact (H2 _ _ Hl).
    + eapply registry_ok_retire; eauto.
  - (* Close *)
    unfold on_close.
    destruct (streams st !! t) as [[id a []] |] eqn:Ht; try exact Hok.
    eapply registry_ok_retire; eauto.
  - (* PostMessages *)
    exact Hok.
Qed.

Lemma run_snoc inputs i : run (inputs ++ [i]) = step (run inputs) i.
Proof. unfold run. rewrite fold_left_app. reflexivity. Qed.

Lemma registry_ok_run inputs : registry_ok (run inputs).
Proof.
  induction inputs as [| i inputs IH] using rev_ind.
  - exact registry_ok_init.
  - rewrite run_snoc. apply registry_ok_step, IH.
Qed.
End RegistryInvariant.

Section RegistryFacts.
Import Server.

Lemma first_key_single (m : gmap string nat) :
  size m = 1%nat -> exists id t, first_key m = Some id /\ m !! id = Some t.
Proof.
  intros Hsize. rewrite <- length_map_to_list in Hsize. unfold first_key.
  destruct (map_to_list m) as [| [id t] [| ? ?]] eqn:E; try discriminate.
  exists id, t. split; [reflexivity |].
  apply elem_of_map_to_list. rewrite E. apply list_elem_of_here.
Qed.

Lemma open_indices_length (l : list stream) :
  length (List.filter (open_at l) (seq 0 (length l)))
  = length (List.filter (fun s => negb (closed s)) l).
Proof.
  induction l as [| x l IH] using rev_ind; [reflexivity |].
  rewrite length_app. simpl length. rewrite Nat.add_1_r.
  rewrite seq_S, !List.filter_app, !length_app, <- IH. simpl.
  f_equal.
  - f_equal. apply filter_ext_in. intros t Ht. apply in_seq in Ht.
    unfold open_at. rewrite lookup_app_l by lia. reflexivity.
  - unfold open_at. rewrite list_lookup_middle by reflexivity.
    destruct (negb (closed x)); reflexivity.
Qed.

Lemma registered_transports_open st :
  registry_ok st -> (size (connections st) <= open_streams st)%nat.
Proof.
  intros (_ & H1 & _). unfold open_streams.
  rewrite <- open_indices_length, <- length_map_to_list.
  rewrite <- (length_fmap snd (map_to_list (connections st))).
  apply submseteq_length, NoDup_submseteq.
  - apply NoDup_fmap_2_strong; [| apply NoDup_map_to_list].
    intros [id t] [id' t'] Hin Hin' Heq. simpl in Heq. subst t'.
    apply elem_of_map_to_list in Hin, Hin'.
    destruct (H1 _ _ Hin) as (s & Hs & Hid & _).
    destruct (H1 _ _ Hin') as (s' & Hs' & Hid' & _).
    congruence.
  - intros t Hin. apply list_elem_of_fmap in Hin.
    destruct Hin as ([id t'] & -> & Hin). simpl.
    apply elem_of_map_to_list in Hin.
    destruct (H1 _ _ Hin) as (s & Hs & _ & Hc & _).
    apply list_elem_of_In, filter_In. split.
    + apply in_seq. apply lookup_lt_Some in Hs. lia.
    + unfold open_at. rewrite Hs, Hc. reflexivity.
Qed.
End RegistryFacts.

(** C3, as stated, fails: after two opens under one client-supplied
    identifier the registry has one entry for two open connections. *)
Lemma registry_size_counterexample :
  ~ (forall inputs,
       size (Server.connections (Server.run inputs))
       = Server.open_streams (Server.run inputs)).
Proof.
  intros H. specialize (H colliding_opens). vm_compute in H. discriminate.
Qed.

(** C3, amended. In every reachable state each registry entry maps its
    identifier to the transport of one stream opened under that identifier
    whose connection is still open and whose attachment has not failed, no
    transport is registered under two identifiers, and the registry is at
    most as large as the number of open connections. *)
Theorem registry_entries_live (inputs : list Server.input) :
  let st := Server.run inputs in
  (forall id t, Server.connections st !! id = Some t ->
     exists s, Server.streams st !! t = Some s /\ Server.sessionId s = id /\
               Server.closed s = false /\ Server.attach s <> Server.Failed) /\
  (forall id id' t, Server.connections st !! id = Some t ->
     Server.connections st !! id' = Some t -> id = id') /\
  (size (Server.connections st) <= Server.open_streams st)%nat.
Proof.
  intros st. pose proof (registry_ok_run inputs) as Hok. fold st in Hok.
  pose proof Hok as (_ & H1 & _).
  split; [exact H1 | split].
  - intros id id' t Hid Hid'.
    destruct (H1 _ _ Hid) as (s & Hs & <- & _).
    destruct (H1 _ _ Hid') as (s' & Hs' & <- & _). congruence.
  - apply registered_transports_open, Hok.
Qed.

Lemma registry_entries_live_witness :
  exists s, Server.streams (Server.run colliding_opens) !! 1%nat = Some s /\
            Server.sessionId s = "abc"%string /\
            Server.closed s = false /\ Server.attach s <> Server.Failed.
Proof.
  apply (proj1 (registry_entries_live colliding_opens) "abc"%string 1%nat).
  vm_compute. reflexivity.
Defined.

(** ** Dispatch of addressed messages *)

(** C1, as stated, fails in two places: before the server is initialized
    a message without identifier is answered 503, not 400, although the
    registry is empty; and an identifier supplied as the empty string is
    not used unchanged when one stream is open. *)
Lemma dispatch_resolution_counterexample :
  ~ (forall inputs query,
       Js.truthy query = false ->
       size (Server.connections (Server.run inputs)) <> 1%nat ->
       Server.post_messages (Server.run inputs) query
       = Server.Rejected 400 Server.no_session_id
           (Some (size (Server.connections (Server.run inputs)))))
  /\ Server.post_messages (Server.run []) None
     = Server.Rejected 503 "Server not initialized" None
  /\ Server.effective_id (Server.run one_open) (Some ""%string) = Some "abc"%string.
Proof.
  split; [| split]; [| reflexivity | vm_compute; reflexivity].
  intros H. specialize (H [] None eq_refl). vm_compute in H.
  specialize (H ltac:(discriminate)). discriminate.
Qed.

(** C1, amended. Before the server is initialized every message is
    answered 503 and no handler runs. Once it is: a non-empty identifier
    supplied in the query is the effective identifier, unchanged; without
    one (absent or empty) and with exactly one registry entry, the message
    is forwarded to that entry's transport; without one and with zero or
    several entries, the reply is 400 with the missing-session message and
    no handler runs. *)
Theorem dispatch_resolution (inputs : list Server.input) (query : option string) :
  let st := Server.run inputs in
  (Server.server st = false ->
     Server.post_messages st query = Server.Rejected 503 "Server not initialized" None) /\
  (Server.server st = true ->
     (forall id, query = Some id -> id <> ""%string ->
        Server.effective_id st query = Some id) /\
     (Js.truthy query = false -> size (Server.connections st) = 1%nat ->
        exists id t, Server.connections st !! id = Some t /\
                     Server.effective_id st query = Some id /\
                     Server.post_messages st query = Server.Forwarded id t) /\
     (Js.truthy query = false -> size (Server.connections st) <> 1%nat ->
        Server.post_messages st query
        = Server.Rejected 400 Server.no_session_id (Some (size (Server.connections st))) /\
        Server.invokes_handler (Server.post_messages st query) = false)).
Proof.
  intros st. pose proof (registry_ok_run inputs) as (_ & H1 & H2). fold st in H1, H2.
  split; [| intros Hsrv; split; [| split]].
  - intros Hsrv. unfold Server.post_messages. rewrite Hsrv. reflexivity.
  - intros id -> Hid. unfold Server.effective_id. simpl.
    destruct id; [congruence | reflexivity].
  - intros Hq Hsize.
    destruct (first_key_single _ Hsize) as (id & t & Hk & Hl).
    assert (Heff : Server.effective_id st query = Some id).
    { unfold Server.effective_id. rewrite Hq, Hsize. exact Hk. }
    exists id, t. split; [exact Hl | split; [exact Heff |]].
    unfold Server.post_messages. rewrite Heff, Hsrv, Hl. simpl.
    destruct (H1 _ _ Hl) as (s & Hs & <- & _). rewrite (H2 _ _ Hs). reflexivity.
  - intros Hq Hsize.
    assert (Heff : Server.effective_id st query = query).
    { unfold Server.effective_id.
      destruct (Nat.eqb_spec (size (Server.connections st)) 1); [contradiction |].
      rewrite andb_false_r. reflexivity. }
    assert (Hpost : Server.post_messages st query
                    = Server.Rejected 400 Server.no_session_id
                        (Some (size (Server.connections st)))).
    { unfold Server.post_messages. rewrite Heff, Hsrv. simpl.
      destruct query as [[| c s] |]; simpl in *; congruence. }
    rewrite Hpost. split; reflexivity.
Qed.

Lemma dispatch_resolution_witness :
  exists id t,
    Server.connections (Server.run one_open) !! id = Some t /\
    Server.effective_id (Server.run one_open) None = Some id /\
    Server.post_messages (Server.run one_open) None = Server.Forwarded id t.
Proof.
  apply (proj1 (proj2 (proj2 (dispatch_resolution one_open None) eq_refl))).
  - reflexivity.
  - vm_compute. reflexivity.
Defined.

(** C5, as stated, fails before the server is initialized: an identifier
    that is not in the registry is then answered 503, not 404. *)
Lemma session_not_found_counterexample :
  ~ (forall inputs query id,
       Server.effective_id (Server.run inputs) query = Some id ->
       Server.connections (Server.run inputs) !! id = None ->
       Server.post_messages (Server.run inputs) query
       = Server.Rejected 404 "Session not found" None).
Proof.
  intros H. specialize (H [] (Some "abc"%string) "abc"%string eq_refl eq_refl).
  vm_compute in H. discriminate.
Qed.

(** C5, amended. Once the server is initialized, a message whose
    effective identifier (a non-empty one, supplied or resolved) is not a key
    of the registry is answered 404 "Session not found" and
    [handlePostMessage] is not invoked. *)
Theorem session_not_found (st : Server.state) (query : option string) (id : string) :
  Server.server st = true ->
  Server.effective_id st query = Some id ->
  id <> ""%string ->
  Server.connections st !! id = None ->
  Server.post_messages st query = Server.Rejected 404 "Session not found" None /\
  Server.invokes_handler (Server.post_messages st query) = false /\
  Server.post_events (Server.post_messages st query) Server.Completes
  = [Server.Reply 404 "Session not found"].
Proof.
  intros Hsrv Heff Hid Hl.
  assert (Hpost : Server.post_messages st query
                  = Server.Rejected 404 "Session not found" None).
  { unfold Server.post_messages. rewrite Heff, Hsrv, Hl. simpl.
    destruct id; [congruence | reflexivity]. }
  rewrite Hpost. repeat split.
Qed.

Lemma session_not_found_witness :
  Server.post_messages (Server.run one_open) (Some "xyz"%string)
  = Server.Rejected 404 "Session not found" None /\
  Server.invokes_handler (Server.post_messages (Server.run one_open) (Some "xyz"%string))
  = false /\
  Server.post_events (Server.post_messages (Server.run one_open) (Some "xyz"%string))
    Server.Completes
  = [Server.Reply 404 "Session not found"].
Proof.
  apply (session_not_found (Server.run one_open) (Some "xyz"%string) "xyz"%string).
  - reflexivity.
  - vm_compute. reflexivity.
  - discriminate.
  - vm_compute. reflexivity.
Defined.

(** C10. In every reachable state, a message without identifier that
    finds exactly one registry entry resolves to that entry's key, the key is
    present at the lookup that follows in the same handler run, and so the
    reply is never 404: the message is forwarded, or (never, in fact)
    rejected earlier with the missing-session error. *)
Theorem single_session_never_not_found (inputs : list Server.input)
    (query : option string) :
  let st := Server.run inputs in
  Js.truthy query = false ->
  size (Server.connections st) = 1%nat ->
  exists id t,
    Server.effective_id st query = Some id /\
    Server.connections st !! id = Some t /\
    Server.post_messages st query <> Server.Rejected 404 "Session not found" None /\
    (Server.post_messages st query = Server.Forwarded id t \/
     Server.post_messages st query
     = Server.Rejected 400 Server.no_session_id (Some 1%nat)).
Proof.
  intros st Hq Hsize.
  pose proof (registry_ok_run inputs) as (H0 & H1 & H2). fold st in H0, H1, H2.
  destruct (first_key_single _ Hsize) as (id & t & Hk & Hl).
  assert (Hsrv : Server.server st = true).
  { destruct (Server.server st) eqn:E; [reflexivity |].
    destruct (H0 eq_refl) as [Hempty _]. rewrite Hempty in Hl. discriminate. }
  assert (Heff : Server.effective_id st query = Some id).
  { unfold Server.effective_id. rewrite Hq, Hsize. exact Hk. }
  assert (Hpost : Server.post_messages st query = Server.Forwarded id t).
  { unfold Server.post_messages. rewrite Heff, Hsrv, Hl. simpl.
    destruct (H1 _ _ Hl) as (s & Hs & <- & _). rewrite (H2 _ _ Hs). reflexivity. }
  exists id, t. rewrite Hpost.
  split; [exact Heff | split; [exact Hl | split; [discriminate | left; reflexivity]]].
Qed.

Lemma single_session_never_not_found_witness :
  exists id t,
    Server.effective_id (Server.run one_open) (Some ""%string) = Some id /\
    Server.connections (Server.run one_open) !! id = Some t /\
    Server.post_messages (Server.run one_open) (Some ""%string)
    <> Server.Rejected 404 "Session not found" None /\
    (Server.post_messages (Server.run one_open) (Some ""%string) = Server.Forwarded id t \/
     Server.post_messages (Server.run one_open) (Some ""%string)
     = Server.Rejected 400 Server.no_session_id (Some 1%nat)).
Proof.
  apply (single_session_never_not_found one_open (Some ""%string)).
  - reflexivity.
  - vm_compute. reflexivity.
Defined.

(** ** Closing a persistent connection *)

(** C4, as stated, fails: when the later stream closes in its turn, there
    is no entry left under its identifier and the size does not change. *)
Lemma close_size_counterexample :
  ~ (forall inputs t s,
       Server.streams (Server.run inputs) !! t = Some s ->
       Server.closed s = false ->
       S (size (Server.connections (Server.step (Server.run inputs) (Server.Close t))))
       = size (Server.connections (Server.run inputs)))
  /\ Server.connections (Server.run collide_then_close_first) !! "abc"%string = None
  /\ Server.open_streams (Server.run collide_then_close_first) = 1%nat.
Proof.
  split; [| split]; [| vm_compute; reflexivity | vm_compute; reflexivity].
  intros H.
  specialize (H collide_then_close_first 1%nat
                {| Server.sessionId := "abc"; Server.attach := Server.Pending;
                   Server.closed := false |}).
  vm_compute in H. specialize (H eq_refl eq_refl). discriminate.
Qed.

(** C4, amended. The close of an open connection bound to identifier [s]
    deletes the registry entry under [s], whichever stream registered it,
    and leaves every other entry as it was; the size decreases by exactly 1
    when there was an entry under [s] and is unchanged when there was none. *)
Theorem close_removes_own_key (st : Server.state) (t : nat) (s : Server.stream) :
  Server.streams st !! t = Some s ->
  Server.closed s = false ->
  let st' := Server.step st (Server.Close t) in
  Server.connections st' = delete (Server.sessionId s) (Server.connections st) /\
  Server.connections st' !! Server.sessionId s = None /\
  (forall id, id <> Server.sessionId s ->
     Server.connections st' !! id = Server.connections st !! id) /\
  size (Server.connections st')
  = match Server.connections st !! Server.sessionId s with
    | Some _ => Nat.pred (size (Server.connections st))
    | None => size (Server.connections st)
    end.
Proof.
  intros Ht Hc st'.
  assert (Hconn : Server.connections st'
                  = delete (Server.sessionId s) (Server.connections st)).
  { unfold st'. simpl. unfold Server.on_close. rewrite Ht.
    destruct s as [id a c]. simpl in Hc. subst c. reflexivity. }
  rewrite Hconn. split; [reflexivity | split; [| split]].
  - apply lookup_delete_eq.
  - intros id Hne. apply lookup_delete_ne. congruence.
  - destruct (Server.connections st !! Server.sessionId s) as [t0 |] eqn:Hl.
    + apply map_size_delete_Some. eauto.
    + rewrite map_size_delete_None by exact Hl. reflexivity.
Qed.

Lemma close_removes_own_key_witness :
  let st := Server.run colliding_opens in
  let st' := Server.step st (Server.Close 0%nat) in
  Server.connections st' = delete "abc"%string (Server.connections st) /\
  Server.connections st' !! "abc"%string = None /\
  (forall id, id <> "abc"%string ->
     Server.connections st' !! id = Server.connections st !! id) /\
  size (Server.connections st')
  = match Server.connections st !! "abc"%string with
    | Some _ => Nat.pred (size (Server.connections st))
    | None => size (Server.connections st)
    end.
Proof.
  apply (close_removes_own_key (Server.run colliding_opens) 0%nat
           {| Server.sessionId := "abc"; Server.attach := Server.Pending;
              Server.closed := false |}).
  - vm_compute. reflexivity.
  - reflexivity.
Defined.

(** ** Order of the effects of a persistent stream *)

Section TraceInvariant.
Import Server.

Lemma precedes_app (P : event -> Prop) (e : event) (tr new : list event) :
  precedes P e tr ->
  (forall before after, new = before ++ e :: after ->
     exists x, In x (tr ++ before) /\ P x) ->
  precedes P e (tr ++ new).
Proof.
  intros Hold Hnew before after Heq.
  apply app_eq_app in Heq as (l & [[Htr Hl] | [Hb Hl]]).
  - destruct l as [| e0 l].
    + simpl in Hl. destruct (Hnew [] after (eq_sym Hl)) as (x & Hin & Hx).
      exists x. split; [| exact Hx].
      rewrite Htr in Hin. rewrite !app_nil_r in Hin. exact Hin.
    + injection Hl as <- ->. exact (Hold _ _ Htr).
  - subst before. exact (Hnew _ _ Hl).
Qed.

Lemma precedes_app_absent (P : event -> Prop) (e : event) (tr new : list event) :
  precedes P e tr -> ~ In e new -> precedes P e (tr ++ new).
Proof.
  intros Hold Hnot. apply precedes_app; [exact Hold |].
  intros before after ->. exfalso. apply Hnot.
  apply in_or_app. right. left. reflexivity.
Qed.

Lemma trace_ok_init : trace_ok init.
Proof.
  unfold trace_ok, precedes. simpl.
  repeat apply conj; intros; try contradiction; try discriminate;
    destruct before; discriminate.
Qed.

Ltac absent := simpl; intuition (try discriminate; try congruence).

(** A step that appends no stream event and leaves the streams alone. *)
Lemma trace_ok_quiet st srv conns new :
  trace_ok st ->
  (forall t, ~ In (Connect t) new) ->
  (forall t, ~ In (ConnectFulfilled t) new) ->
  (forall t id, ~ In (WriteSessionInit t id) new) ->
  trace_ok {| server := srv; connections := conns; streams := streams st;
              trace := trace st ++ new |}.
Proof.
  intros (T1 & T2 & T3 & T4 & T5) N1 N2 N3.
  unfold trace_ok. simpl. repeat apply conj.
  - intros t. apply precedes_app_absent; auto.
  - intros t. apply precedes_app_absent; auto.
  - intros t id. apply precedes_app_absent; auto.
  - intros t id Hin. apply in_app_or in Hin as [Hin | Hin]; [auto |].
    exfalso. eapply N3; eauto.
  - intros t s Hs. apply in_or_app. left. eauto.
Qed.

(** Opening a stream: the entry is set, then [server.connect] is called. *)
Lemma trace_ok_open st srv conns id a rest :
  trace_ok st ->
  (forall t, ~ In (Connect t) rest) ->
  (forall t, ~ In (ConnectFulfilled t) rest) ->
  (forall t i, ~ In (WriteSessionInit t i) rest) ->
  a <> Attached ->
  trace_ok
    {| server := srv; connections := conns;
       streams := streams st ++ [{| sessionId := id; attach := a; closed := false |}];
       trace := trace st ++ RegistrySet id (length (streams st))
                            :: Connect (length (streams st)) :: rest |}.
Proof.
  intros (T1 & T2 & T3 & T4 & T5) N1 N2 N3 Ha.
  unfold trace_ok. simpl. repeat apply conj.
  - intros t. apply precedes_app; [apply T1 |].
    intros before after Heq.
    destruct before as [| b0 [| b1 before]]; simpl in Heq; try discriminate.
    + injection Heq as <- ->.
      eexists. split; [apply in_or_app; right; left; reflexivity | eauto].
    + injection Heq as _ _ Heq. exfalso. apply (N1 t). rewrite Heq.
      apply in_or_app. right. left. reflexivity.
  - intros t. apply precedes_app_absent; [apply T2 |].
    simpl. intros [H | [H | H]]; try discriminate. exact (N2 _ H).
  - intros t i. apply precedes_app_absent; [apply T3 |].
    simpl. intros [H | [H | H]]; try discriminate. exact (N3 _ _ H).
  - intros t i Hin. apply in_app_or in Hin as [Hin | Hin].
    + destruct (T4 _ _ Hin) as (s & Hs & Hrest). exists s. split; [| exact Hrest].
      rewrite lookup_app_l; [exact Hs | eapply lookup_lt_Some; exact Hs].
    + simpl in Hin. destruct Hin as [H | [H | H]]; try discriminate.
      exfalso. exact (N3 _ _ H).
  - intros t s Hs. apply in_or_app.
    apply lookup_snoc_Some in Hs as [Hs | [-> _]].
    + left. eauto.
    + right. right. left. reflexivity.
Qed.

(** Changing the status of stream [t0] without announcing anything. *)
Lemma trace_ok_retire st srv conns t0 id a c a' c' new :
  trace_ok st ->
  streams st !! t0 = Some {| sessionId := id; attach := a; closed := c |} ->
  (a = Attached -> a' = Attached) ->
  (forall t, ~ In (Connect t) new) ->
  (forall t, ~ In (ConnectFulfilled t) new) ->
  (forall t i, ~ In (WriteSessionInit t i) new) ->
  trace_ok
    {| server := srv; connections := conns;
       streams := <[t0 := {| sessionId := id; attach := a'; closed := c' |}]> (streams st);
       trace := trace st ++ new |}.
Proof.
  intros (T1 & T2 & T3 & T4 & T5) Ht0 Hkeep N1 N2 N3.
  unfold trace_ok. simpl. repeat apply conj.
  - intros t. apply precedes_app_absent; auto.
  - intros t. apply precedes_app_absent; auto.
  - intros t i. apply precedes_app_absent; auto.
  - intros t i Hin. apply in_app_or in Hin as [Hin | Hin];
      [| exfalso; eapply N3; eauto].
    destruct (T4 _ _ Hin) as (s & Hs & Hatt & Hid).
    destruct (decide (t = t0)) as [-> | Hne].
    + rewrite Ht0 in Hs. injection Hs as <-. simpl in *.
      eexists. split.
      * apply list_lookup_insert_eq. eapply lookup_lt_Some; exact Ht0.
      * simpl. auto.
    + exists s. rewrite list_lookup_insert_ne by congruence. auto.
  - intros t s Hs. apply in_or_app. left.
    apply lookup_insert_stream in Hs as [[-> _] | [_ Hs]]; eauto.
Qed.

Lemma trace_ok_step st i : trace_ok st -> trace_ok (step st i).
Proof.
  intros Hok.
  destruct i as [| query random o | t0 fulfilled | t0 | query h]; simpl.
  - (* Initialized *)
    exact Hok.
  - (* GetSse *)
    unfold get_sse. destruct (negb (server st)).
    + apply trace_ok_quiet; [exact Hok | absent ..].
    + destruct o.
      * apply trace_ok_open; [exact Hok | absent ..].
      * apply trace_ok_quiet; [exact Hok | absent ..].
      * apply trace_ok_open; [exact Hok | absent ..].
  - (* ConnectSettled *)
    unfold connect_settled.
    destruct (streams st !! t0) as [[id [] c] |] eqn:Ht0; try exact Hok.
    destruct fulfilled.
    + destruct Hok as (T1 & T2 & T3 & T4 & T5).
      unfold trace_ok. simpl. repeat apply conj.
      * intros t. apply precedes_app_absent; [apply T1 | absent].
      * intros t. apply precedes_app; [apply T2 |].
        intros before after Heq.
        destruct before as [| b0 [| b1 before]]; simpl in Heq; try discriminate.
        -- injection Heq as <- _. exists (Connect t0).
           rewrite app_nil_r. split; [eapply T5; exact Ht0 | reflexivity].
        -- injection Heq as _ _ Heq. destruct before; discriminate.
      * intros t i. apply precedes_app; [apply T3 |].
        intros before after Heq.
        destruct before as [| b0 [| b1 before]]; simpl in Heq; try discriminate.
        -- injection Heq as E1 E2 E3 E4. subst.
           exists (ConnectFulfilled t). split; [| reflexivity].
           apply in_or_app. right. left. reflexivity.
        -- injection Heq as _ _ Heq. destruct before; discriminate.
      * intros t i Hin. apply in_app_or in Hin as [Hin | Hin].
        -- destruct (T4 _ _ Hin) as (s & Hs & Hatt & Hid).
           destruct (decide (t = t0)) as [-> | Hne].
           ++ rewrite Ht0 in Hs. injection Hs as <-. discriminate.
           ++ exists s. rewrite list_lookup_insert_ne by congruence. auto.
        -- simpl in Hin. destruct Hin as [H | [H | []]]; try discriminate.
           injection H as <- <-. eexists. split.
           ++ apply list_lookup_insert_eq. eapply lookup_lt_Some; exact Ht0.
           ++ simpl. auto.
      * intros t s Hs. apply in_or_app. left.
        apply lookup_insert_stream in Hs as [[-> _] | [_ Hs]]; eauto.
    + eapply trace_ok_retire; [exact Hok | exact Ht0 | discriminate | absent ..].
  - (* Close *)
    unfold on_close.
    destruct (streams st !! t0) as [[id a []] |] eqn:Ht0; try exact Hok.
    eapply trace_ok_retire; [exact Hok | exact Ht0 | auto | absent ..].
  - (* PostMessages *)
    apply trace_ok_quiet; [exact Hok | ..];
      destruct (post_messages st query), h; absent.
Qed.

Lemma trace_ok_run inputs : trace_ok (run inputs).
Proof.
  induction inputs as [| i inputs IH] using rev_ind.
  - exact trace_ok_init.
  - rewrite run_snoc. apply trace_ok_step, IH.
Qed.

End TraceInvariant.

(** ** The registry and the trace of its calls *)

Section RegistryOrder.
Import Server.

Lemma list_to_map_map_set (id : string) (t : nat) (entries : list (string * nat)) :
  (list_to_map (map_set id t entries) : gmap string nat)
  = <[id := t]> (list_to_map entries).
Proof.
  induction entries as [| [k v] rest IH]; simpl; [reflexivity |].
  destruct (String.eqb_spec k id) as [-> | Hne]; simpl.
  - rewrite insert_insert_eq. reflexivity.
  - rewrite IH. apply insert_insert_ne. exact Hne.
Qed.

Lemma list_to_map_map_delete (id : string) (entries : list (string * nat)) :
  (list_to_map (map_delete id entries) : gmap string nat)
  = delete id (list_to_map entries).
Proof.
  induction entries as [| [k v] rest IH]; simpl.
  - symmetry. apply delete_empty.
  - destruct (String.eqb_spec k id) as [-> | Hne]; simpl.
    + rewrite IH. symmetry. apply delete_insert_eq.
    + rewrite IH. symmetry. apply delete_insert_ne. congruence.
Qed.

(** [set] on a key that is present keeps the order of the keys. *)
Lemma map_set_keys_present (id : string) (t : nat) (entries : list (string * nat)) :
  In id (List.map fst entries) ->
  List.map fst (map_set id t entries) = List.map fst entries.
Proof.
  induction entries as [| [k v] rest IH]; simpl; [contradiction |].
  intros Hin. destruct (String.eqb_spec k id) as [-> | Hne]; simpl; [reflexivity |].
  rewrite IH; [reflexivity |]. destruct Hin; [contradiction | assumption].
Qed.

(** [set] on a new key appends it. *)
Lemma map_set_keys_absent (id : string) (t : nat) (entries : list (string * nat)) :
  ~ In id (List.map fst entries) ->
  List.map fst (map_set id t entries) = List.map fst entries ++ [id].
Proof.
  induction entries as [| [k v] rest IH]; simpl; [reflexivity |].
  intros Hnot. destruct (String.eqb_spec k id) as [-> | Hne]; simpl; [tauto |].
  rewrite IH; [reflexivity | tauto].
Qed.

Lemma NoDup_map_set (id : string) (t : nat) (entries : list (string * nat)) :
  NoDup (List.map fst entries) -> NoDup (List.map fst (map_set id t entries)).
Proof.
  intros Hnd. destruct (in_dec string_dec id (List.map fst entries)) as [Hin | Hnot].
  - rewrite map_set_keys_present by exact Hin. exact Hnd.
  - rewrite map_set_keys_absent by exact Hnot.
    apply NoDup_app. split; [exact Hnd | split; [| apply NoDup_singleton]].
    intros x Hx Hx'. apply list_elem_of_singleton in Hx'. subst x.
    apply Hnot, list_elem_of_In, Hx.
Qed.

Lemma NoDup_map_delete (id : string) (entries : list (string * nat)) :
  NoDup (List.map fst entries) -> NoDup (List.map fst (map_delete id entries)).
Proof.
  induction entries as [| [k v] rest IH]; simpl; [auto |].
  intros Hnd. apply NoDup_cons in Hnd as [Hk Hnd].
  destruct (negb (String.eqb k id)); simpl; [| auto].
  apply NoDup_cons. split; [| auto].
  intros Hin. apply Hk.
  apply list_elem_of_In, in_map_iff in Hin as ([k' v'] & <- & Hin).
  apply filter_In in Hin as [Hin _].
  apply list_elem_of_In, in_map_iff. exists (k', v'). auto.
Qed.

Lemma entries_after_app (tr new : list event) :
  entries_after (tr ++ new) = fold_left registry_call new (entries_after tr).
Proof. apply fold_left_app. Qed.

Lemma order_ok_init : order_ok init.
Proof. split; [reflexivity | apply NoDup_nil_2]. Qed.

Ltac replayed H1 H2 :=
  unfold order_ok, registry_after; simpl; rewrite ?entries_after_app; simpl;
  split;
  [ rewrite ?list_to_map_map_delete, ?list_to_map_map_set; unfold registry_after in H1;
    rewrite ?H1; reflexivity
  | repeat first [apply NoDup_map_delete | apply NoDup_map_set]; exact H2 ].

Lemma order_ok_step st i : order_ok st -> order_ok (step st i).
Proof.
  intros [H1 H2].
  destruct i as [| query random o | t0 fulfilled | t0 | query h]; simpl.
  - split; assumption.
  - unfold get_sse. destruct (negb (server st)); [replayed H1 H2 |].
    destruct o; replayed H1 H2.
  - unfold connect_settled.
    destruct (streams st !! t0) as [[id [] c] |]; try (split; assumption).
    destruct fulfilled; replayed H1 H2.
  - unfold on_close.
    destruct (streams st !! t0) as [[id a []] |]; try (split; assumption).
    replayed H1 H2.
  - destruct (post_messages st query), h; replayed H1 H2.
Qed.

Lemma order_ok_run inputs : order_ok (run inputs).
Proof.
  induction inputs as [| i inputs IH] using rev_ind.
  - exact order_ok_init.
  - rewrite run_snoc. apply order_ok_step, IH.
Qed.






End RegistryOrder.



(** ** Serialization of results *)

Section SerializationFacts.
Import Json Api.

Abbreviation big_replacer := HttpServer.replacer.

Lemma SerializeJSONArray_ext (f g : string -> value -> option (exn + option value))
    (h : value -> value) (items : list value) :
  (forall k x, f k x = g k (h x)) ->
  forall i, SerializeJSONArray f i items = SerializeJSONArray g i (List.map h items).
Proof.
  intros Hfg. induction items as [| x items IH]; intros i; simpl; [reflexivity |].
  rewrite Hfg, IH. reflexivity.
Qed.

Lemma SerializeJSONObject_ext (f g : string -> value -> option (exn + option value))
    (h : value -> value) (fields : list (string * value)) :
  (forall k x, f k x = g k (h x)) ->
  SerializeJSONObject f fields
  = SerializeJSONObject g (List.map (fun kv => (fst kv, h (snd kv))) fields).
Proof.
  intros Hfg. induction fields as [| [k x] fields IH]; simpl; [reflexivity |].
  rewrite Hfg, IH. reflexivity.
Qed.

(** Serializing with the replacer is serializing, without a replacer, the
    value whose BigInts are already decimal strings. *)
Lemma replacer_refines_coercion (fuel : nat) :
  forall key v,
    SerializeJSONProperty fuel big_replacer key v
    = SerializeJSONProperty fuel no_replacer key (coerce_bigints v).
Proof.
  induction fuel as [| fuel IH]; intros key v; [reflexivity |].
  destruct v as [| | b | [q | |] | z | s | items | fields]; simpl; try reflexivity.
  - rewrite (SerializeJSONArray_ext _ _ coerce_bigints items IH). reflexivity.
  - rewrite (SerializeJSONObject_ext _ _ coerce_bigints fields IH). reflexivity.
Qed.

Lemma SerializeJSONArray_never (P : exn + option value -> Prop)
    (Q : exn + list value -> Prop)
    (f : string -> value -> option (exn + option value)) (items : list value) :
  (forall k x r, f k x = Some r -> P r) ->
  (forall e, P (inl e) -> False) ->
  forall i e, SerializeJSONArray f i items <> Some (inl e).
Proof.
  intros Hf HP. induction items as [| x items IH]; intros i e; simpl; [discriminate |].
  destruct (f (index_key i) x) as [[e' | o] |] eqn:E; try discriminate.
  - exfalso. eapply HP, Hf, E.
  - specialize (IH (S i)).
    destruct (SerializeJSONArray f (S i) items) as [[e' | l] |]; try discriminate.
    exfalso. eapply IH. reflexivity.
Qed.

Lemma SerializeJSONObject_never (P : exn + option value -> Prop)
    (f : string -> value -> option (exn + option value))
    (fields : list (string * value)) :
  (forall k x r, f k x = Some r -> P r) ->
  (forall e, P (inl e) -> False) ->
  forall e, SerializeJSONObject f fields <> Some (inl e).
Proof.
  intros Hf HP. induction fields as [| [k x] fields IH]; intros e; simpl; [discriminate |].
  destruct (f k x) as [[e' | o] |] eqn:E; try discriminate.
  - exfalso. eapply HP, Hf, E.
  - destruct (SerializeJSONObject f fields) as [[e' | l] |]; try discriminate.
    exfalso. eapply IH. reflexivity.
Qed.

(** With the replacer in place nothing throws: a BigInt never reaches the
    type dispatch. *)
Lemma replacer_never_throws (fuel : nat) :
  forall key v e, SerializeJSONProperty fuel big_replacer key v <> Some (inl e).
Proof.
  induction fuel as [| fuel IH]; intros key v e; [discriminate |].
  assert (Hrec : forall k x r,
             SerializeJSONProperty fuel big_replacer k x = Some r ->
             (fun r => forall e', r <> inl e') r).
  { intros k x r Hr e' ->. exact (IH _ _ _ Hr). }
  destruct v as [| | b | [q | |] | z | s | items | fields]; simpl; try discriminate.
  - pose proof (SerializeJSONArray_never _ (fun _ => True) _ items Hrec
                  (fun e' H => H e' eq_refl) 0%nat) as Hno.
    destruct (SerializeJSONArray _ 0 items) as [[e' | l] |]; try discriminate.
    exfalso. eapply Hno. reflexivity.
  - pose proof (SerializeJSONObject_never _ _ fields Hrec
                  (fun e' H => H e' eq_refl)) as Hno.
    destruct (SerializeJSONObject _ fields) as [[e' | l] |]; try discriminate.
    exfalso. eapply Hno. reflexivity.
Qed.

Lemma SerializeJSONArray_total (f : string -> value -> option (exn + option value))
    (items : list value) :
  (forall k x, In x items -> f k x <> None) ->
  forall i, SerializeJSONArray f i items <> None.
Proof.
  induction items as [| x items IH]; intros Hf i; simpl; [discriminate |].
  destruct (f (index_key i) x) as [[e | o] |] eqn:E; try discriminate.
  - specialize (IH (fun k y Hy => Hf k y (or_intror Hy)) (S i)).
    destruct (SerializeJSONArray f (S i) items) as [[e | l] |];
      [discriminate | discriminate | congruence].
  - exfalso. eapply Hf; [left; reflexivity | exact E].
Qed.

Lemma SerializeJSONObject_total (f : string -> value -> option (exn + option value))
    (fields : list (string * value)) :
  (forall k x, In x (List.map snd fields) -> f k x <> None) ->
  SerializeJSONObject f fields <> None.
Proof.
  induction fields as [| [k x] fields IH]; intros Hf; simpl; [discriminate |].
  destruct (f k x) as [[e | o] |] eqn:E; try discriminate.
  - specialize (IH (fun k' y Hy => Hf k' y (or_intror Hy))).
    destruct (SerializeJSONObject f fields) as [[e | l] |];
      [discriminate | discriminate | congruence].
  - exfalso. eapply Hf; [left; reflexivity | exact E].
Qed.

Lemma depth_item (x : value) (l : list value) :
  In x l -> (depth x <= list_max (List.map depth l))%nat.
Proof.
  intros Hin. induction l as [| y l IH]; simpl in *; [contradiction |].
  destruct Hin as [-> | Hin]; [lia | specialize (IH Hin); lia].
Qed.

Lemma depth_field (x : value) (fields : list (string * value)) :
  In x (List.map snd fields) ->
  (depth x <= list_max (List.map (fun kv => depth (snd kv)) fields))%nat.
Proof.
  intros Hin. induction fields as [| [k y] l IH]; simpl in *; [contradiction |].
  destruct Hin as [-> | Hin]; [lia | specialize (IH Hin); lia].
Qed.

(** Fuel beyond the nesting depth is enough, for any replacer that does
    not return a value nested deeper than the one it was given. *)
Lemma serialize_fuel (replacer : string -> value -> value) :
  (forall k v, (depth (replacer k v) <= depth v)%nat) ->
  forall fuel key v,
    (depth v < fuel)%nat -> SerializeJSONProperty fuel replacer key v <> None.
Proof.
  intros Hrep. induction fuel as [| fuel IH]; intros key v Hd; [lia |].
  simpl. pose proof (Hrep key v) as Hle.
  destruct (replacer key v) as [| | b | [q | |] | z | s | items | fields];
    try discriminate; simpl in Hle.
  - assert (Hno : SerializeJSONArray (SerializeJSONProperty fuel replacer) 0 items <> None).
    { apply SerializeJSONArray_total. intros k x Hin. apply IH.
      pose proof (depth_item x items Hin). lia. }
    destruct (SerializeJSONArray _ 0 items) as [[e | l] |];
      [discriminate | discriminate | congruence].
  - assert (Hno : SerializeJSONObject (SerializeJSONProperty fuel replacer) fields <> None).
    { apply SerializeJSONObject_total. intros k x Hin. apply IH.
      pose proof (depth_field x fields Hin). lia. }
    destruct (SerializeJSONObject _ fields) as [[e | l] |];
      [discriminate | discriminate | congruence].
Qed.

Lemma big_replacer_depth k v : (depth (big_replacer k v) <= depth v)%nat.
Proof. destruct v; simpl; lia. Qed.

Lemma no_replacer_depth k v : (depth (no_replacer k v) <= depth v)%nat.
Proof. unfold no_replacer. lia. Qed.

(** The fallback branch of [serializedResult] is never taken. *)
Lemma serializedResult_fuel (not_json : string) (result : value) :
  parse_stringify not_json (S (depth result)) big_replacer result <> None.
Proof.
  unfold parse_stringify.
  pose proof (serialize_fuel big_replacer big_replacer_depth (S (depth result))
                "" result ltac:(lia)) as Hno.
  destruct (SerializeJSONProperty _ _ _ _) as [[e | [r |]] |];
    [discriminate | discriminate | discriminate | congruence].
Qed.

(** Nor does the logging [JSON.stringify] of the second variant run out. *)
Lemma JSON_stringify_fuel (v : value) :
  SerializeJSONProperty (S (depth v)) no_replacer "" v <> None.
Proof. apply serialize_fuel; [exact no_replacer_depth | lia]. Qed.

(** What serialization produces holds no BigInt, whatever the replacer. *)
Lemma SerializeJSONArray_clean (f : string -> value -> option (exn + option value))
    (items : list value) :
  (forall k x r, f k x = Some (inr (Some r)) -> has_bigint r = false) ->
  forall i l, SerializeJSONArray f i items = Some (inr l) ->
              existsb has_bigint l = false.
Proof.
  intros Hf. induction items as [| x items IH]; intros i l; simpl.
  - intros [= <-]. reflexivity.
  - destruct (f (index_key i) x) as [[e | o] |] eqn:E; try discriminate.
    destruct (SerializeJSONArray f (S i) items) as [[e | l'] |] eqn:E';
      try discriminate.
    intros [= <-]. simpl. rewrite (IH _ _ E'), orb_false_r.
    destruct o as [r |]; [exact (Hf _ _ _ E) | reflexivity].
Qed.

Lemma SerializeJSONObject_clean (f : string -> value -> option (exn + option value))
    (fields : list (string * value)) :
  (forall k x r, f k x = Some (inr (Some r)) -> has_bigint r = false) ->
  forall l, SerializeJSONObject f fields = Some (inr l) ->
            existsb (fun kv => has_bigint (snd kv)) l = false.
Proof.
  intros Hf. induction fields as [| [k x] fields IH]; intros l; simpl.
  - intros [= <-]. reflexivity.
  - destruct (f k x) as [[e | o] |] eqn:E; try discriminate.
    destruct (SerializeJSONObject f fields) as [[e | l'] |] eqn:E';
      try discriminate.
    intros [= <-]. destruct o as [r |]; [| exact (IH _ eq_refl)].
    simpl. rewrite (IH _ eq_refl), orb_false_r. exact (Hf _ _ _ E).
Qed.

Lemma serialized_clean (replacer : string -> value -> value) (fuel : nat) :
  forall key v r,
    SerializeJSONProperty fuel replacer key v = Some (inr (Some r)) ->
    has_bigint r = false.
Proof.
  induction fuel as [| fuel IH]; intros key v r; [discriminate |].
  simpl.
  destruct (replacer key v) as [| | b | [q | |] | z | s | items | fields];
    try discriminate; try (intros [= <-]; reflexivity).
  - destruct (SerializeJSONArray _ 0 items) as [[e | l] |] eqn:E; try discriminate.
    intros [= <-]. simpl. eapply SerializeJSONArray_clean; [exact IH | exact E].
  - destruct (SerializeJSONObject _ fields) as [[e | l] |] eqn:E; try discriminate.
    intros [= <-]. simpl. eapply SerializeJSONObject_clean; [exact IH | exact E].
Qed.

(** Without a replacer, only a BigInt makes [JSON.stringify] throw. *)
Lemma no_replacer_throws_on_bigint_only (fuel : nat) :
  forall key v e,
    has_bigint v = false ->
    SerializeJSONProperty fuel no_replacer key v <> Some (inl e).
Proof.
  induction fuel as [| fuel IH]; intros key v e Hv; [discriminate |].
  simpl. unfold no_replacer at 1.
  destruct v as [| | b | [q | |] | z | s | items | fields]; simpl in *;
    try discriminate.
  - assert (Hno : forall i e',
               SerializeJSONArray (SerializeJSONProperty fuel no_replacer) i items
               <> Some (inl e')).
    { clear e. induction items as [| x items IHi]; intros i e'; simpl; [discriminate |].
      simpl in Hv. apply orb_false_elim in Hv as [Hx Hrest].
      destruct (SerializeJSONProperty fuel no_replacer (index_key i) x)
        as [[e0 | o] |] eqn:E; try discriminate.
      - exfalso. exact (IH _ _ _ Hx E).
      - specialize (IHi Hrest (S i)).
        destruct (SerializeJSONArray _ (S i) items) as [[e0 | l] |]; try discriminate.
        exfalso. eapply IHi. reflexivity. }
    specialize (Hno 0%nat).
    destruct (SerializeJSONArray _ 0 items) as [[e0 | l] |]; try discriminate.
    exfalso. eapply Hno. reflexivity.
  - assert (Hno : forall e',
               SerializeJSONObject (SerializeJSONProperty fuel no_replacer) fields
               <> Some (inl e')).
    { clear e. induction fields as [| [k x] fields IHf]; intros e'; simpl; [discriminate |].
      simpl in Hv. apply orb_false_elim in Hv as [Hx Hrest].
      destruct (SerializeJSONProperty fuel no_replacer k x)
        as [[e0 | o] |] eqn:E; try discriminate.
      - exfalso. exact (IH _ _ _ Hx E).
      - specialize (IHf Hrest).
        destruct (SerializeJSONObject _ fields) as [[e0 | l] |]; try discriminate.
        exfalso. eapply IHf. reflexivity. }
    destruct (SerializeJSONObject _ fields) as [[e0 | l] |]; try discriminate.
    exfalso. eapply Hno. reflexivity.
Qed.
End SerializationFacts.

(** ** The direct-call endpoint *)

Section EndpointFacts.
Import Json Api.

Lemma switch_on_absent {A} (m : string) (cases : list (string * A)) (otherwise : A) :
  ~ In m (List.map fst cases) -> switch_on (Str m) cases otherwise = otherwise.
Proof.
  induction cases as [| [label h] cases IH]; simpl; intros Hnot; [reflexivity |].
  destruct (String.eqb_spec m label) as [-> | Hne]; [tauto |].
  apply IH. tauto.
Qed.


Lemma Part000_methods_of_cases (w : world) (params : value) :
  List.map fst (Part000.cases w params) = Part000.methods w.
Proof. reflexivity. Qed.


Lemma Part000_dispatch_unknown (w : world) (m : string) (params : value) :
  ~ In m (Part000.methods w) ->
  Part000.dispatch w (Str m) params
  = ret (Obj [("message", Str ("Method " +:+ m +:+ " received but not yet implemented"))]).
Proof.
  intros Hnot. unfold Part000.dispatch. rewrite switch_on_absent; [reflexivity |].
  rewrite Part000_methods_of_cases. exact Hnot.
Qed.

Lemma switch_on_not_string {A} (method : value) (cases : list (string * A))
    (otherwise : A) :
  (forall m, method <> Str m) -> switch_on method cases otherwise = otherwise.
Proof.
  intros Hn. induction cases as [| [label h] cases IH]; simpl; [reflexivity |].
  destruct method; try exact IH. exfalso. eapply Hn. reflexivity.
Qed.

(** Only a string selects a case: when the [switch] of [http-server.ts]
    returns, the method was a string. *)
Lemma HttpServer_dispatch_string (w : world) (method params : value)
    (calls : list call) (result : value) :
  HttpServer.dispatch w method params = (calls, inr result) -> exists m, method = Str m.
Proof.
  intros Hd. unfold HttpServer.dispatch in Hd.
  destruct method as [| | b | n | z | s | items | fields]; eauto;
    rewrite switch_on_not_string in Hd by discriminate;
    unfold bind, lift, throw in Hd;
    match type of Hd with
    | context [toString w ?v] => destruct (toString w v)
    end; discriminate.
Qed.

(** The reply of [http-server.ts] to a method that its log line can
    convert, from what its [switch] did. *)
Lemma HttpServer_reply (w : world) (req_body : list (string * value)) (text : string)
    (calls : list call) (outcome : exn + value) :
  toString w (field "method" req_body) = inr text ->
  HttpServer.dispatch w (field "method" req_body) (field "params" req_body)
  = (calls, outcome) ->
  HttpServer.api_mcp w true req_body
  = (calls, inr (reply_for w (field "id" req_body) outcome)).
Proof.
  intros Ht Hd. unfold HttpServer.api_mcp, reply_for. simpl. rewrite Ht. simpl.
  rewrite Hd.
  destruct outcome as [e | v]; simpl; [rewrite app_nil_r; reflexivity |].
  destruct (HttpServer.serializedResult w v) as [e | r]; simpl;
    rewrite ?app_nil_r; reflexivity.
Qed.

Lemma join_items_error (rec : value -> exn + string) (P : exn -> Prop)
    (items : list value) :
  (forall x e, In x items -> rec x = inl e -> P e) ->
  forall e, join_items rec items = inl e -> P e.
Proof.
  induction items as [| x items IH]; simpl; intros Hrec e; [discriminate |].
  destruct (nullish x).
  - destruct (join_items rec items) as [e' | texts] eqn:E; [| discriminate].
    intros [= <-]. eapply IH; eauto.
  - destruct (rec x) as [e' | text] eqn:Ex.
    + intros [= <-]. eapply Hrec; eauto.
    + destruct (join_items rec items) as [e' | texts] eqn:E; [| discriminate].
      intros [= <-]. eapply IH; eauto.
Qed.

(** A conversion to a string throws nothing but its TypeError. *)
Lemma toString_error (w : world) (v : value) (e : exn) :
  toString w v = inl e -> e = JsError "Cannot convert object to primitive value".
Proof.
  remember (S (depth v)) as n eqn:Hn.
  assert (Hd : (depth v < n)%nat) by lia. clear Hn.
  revert v e Hd. induction n as [| n IH]; intros v e Hd; [lia |].
  destruct v as [| | [] | x | z | s | items | fields]; simpl; try discriminate.
  - destruct (join_items (toString w) items) as [e' | texts] eqn:E; [| discriminate].
    intros [= <-]. revert E.
    apply (join_items_error (toString w)
             (fun e => e = JsError "Cannot convert object to primitive value") items).
    intros x e0 Hin. apply IH. simpl in Hd.
    pose proof (depth_item x items Hin). lia.
  - destruct (has_own "toString" fields); [| discriminate].
    intros [= <-]. reflexivity.
Qed.

(** The placeholder reply of the second variant can be logged: its only
    part that comes from the request is the [id]. *)
Lemma Part000_placeholder_logged (id : value) (text : string) :
  has_bigint id = false ->
  Part000.JSON_stringify
    (Obj [("jsonrpc", Str "2.0"); ("id", id);
          ("result", Obj [("message", Str text)])])
  = inr tt.
Proof.
  intros Hid. unfold Part000.JSON_stringify.
  match goal with
  | |- match ?x with _ => _ end = _ => destruct x as [[e' | o] |] eqn:E
  end; try reflexivity.
  exfalso. eapply no_replacer_throws_on_bigint_only; [| exact E].
  simpl. rewrite Hid. reflexivity.
Qed.
End EndpointFacts.


(** What the second variant does with a valid envelope whose method is
    outside its table: it replies with a placeholder result. *)
Lemma Part000_unknown_method_placeholder (w : Api.world)
    (req_body : list (string * Json.value)) (m : string) :
  Json.field "method" req_body = Json.Str m ->
  ~ In m (Api.Part000.methods w) ->
  Json.field "jsonrpc" req_body = Json.Str "2.0" -> m <> ""%string ->
  Json.has_bigint (Json.field "id" req_body) = false ->
  Api.Part000.api_mcp w true req_body
  = ([], {| Api.status := 200;
            Api.body :=
              Json.Obj [("jsonrpc", Json.Str "2.0"); ("id", Json.field "id" req_body);
                        ("result",
                           Json.Obj [("message",
                                      Json.Str ("Method " +:+ m
                                                +:+ " received but not yet implemented"))])] |}).
Proof.
  intros Hm Hnot Hv Hne Hid.
  unfold Api.Part000.api_mcp. simpl. rewrite Hm, Hv. simpl.
  assert (Htruthy : Js.truthy_string m = true)
    by (destruct m; [congruence | reflexivity]).
  rewrite Htruthy. simpl.
  rewrite Part000_dispatch_unknown by exact Hnot. simpl.
  rewrite Part000_placeholder_logged by exact Hid. reflexivity.
Qed.



(** C7, as stated, fails: before the server is initialized the second
    variant rejects a version 1.0 envelope with the 503 error, not with the
    version error; and [http-server.ts], which never reads the [jsonrpc]
    field, runs the backend operation of such an envelope and returns its
    result. *)
Lemma protocol_version_counterexample :
  ~ (forall w req_body,
       Api.is_string (Json.field "jsonrpc" req_body) "2.0" = false ->
       fst (Api.HttpServer.api_mcp w true req_body) = [])
  /\ Api.HttpServer.api_mcp sample_world true
       (envelope "1.0" "get_supported_networks" Json.Null)
     = ([Api.Backend Api.getSupportedNetworks []],
        inr {| Api.status := 200;
               Api.body := Api.HttpServer.rpc_result (Json.num_of_Z 1)
                             (Json.Arr [Json.Str "sei"]) |})
  /\ Api.Part000.api_mcp sample_world false
       (envelope "1.0" "get_supported_networks" Json.Null)
     = ([], {| Api.status := 503;
               Api.body := Api.Part000.rpc_error (Json.num_of_Z 1) (-32000)
                             "Server not initialized" |}).
Proof.
  split; [| split; vm_compute; reflexivity].
  intros H.
  specialize (H sample_world (envelope "1.0" "get_supported_networks" Json.Null) eq_refl).
  vm_compute in H. discriminate.
Qed.

(** [http-server.ts] has no such check: its calls and its reply depend on
    [method], [params] and [id] only. *)
Lemma HttpServer_ignores_jsonrpc (w : Api.world) (server : bool)
    (req_body other : list (string * Json.value)) :
  Json.field "method" other = Json.field "method" req_body ->
  Json.field "params" other = Json.field "params" req_body ->
  Json.field "id" other = Json.field "id" req_body ->
  Api.HttpServer.api_mcp w server other = Api.HttpServer.api_mcp w server req_body.
Proof.
  intros Hm Hp Hi. unfold Api.HttpServer.api_mcp. rewrite Hm, Hp, Hi. reflexivity.
Qed.

(** C7, amended. The variant that validates the envelope (the second
    one) rejects every envelope whose [jsonrpc] field is not the string
    "2.0" before any backend operation executes: with 400 and the error
    -32600 "Invalid JSON-RPC version" once the server is initialized, with
    the 503 error before. *)
Theorem protocol_version_check (w : Api.world) (req_body : list (string * Json.value)) :
  Api.is_string (Json.field "jsonrpc" req_body) "2.0" = false ->
  Api.Part000.api_mcp w true req_body
  = ([], {| Api.status := 400;
            Api.body := Api.Part000.rpc_error (Json.field "id" req_body) (-32600)
                          "Invalid JSON-RPC version" |}) /\
  Api.Part000.api_mcp w false req_body
  = ([], {| Api.status := 503;
            Api.body := Api.Part000.rpc_error (Json.field "id" req_body) (-32000)
                          "Server not initialized" |}).
Proof.
  intros Hv. split.
  - unfold Api.Part000.api_mcp. simpl. rewrite Hv. reflexivity.
  - reflexivity.
Qed.

Lemma protocol_version_check_witness :
  Api.Part000.api_mcp sample_world true (envelope "1.0" "get_supported_networks" Json.Null)
  = ([], {| Api.status := 400;
            Api.body := Api.Part000.rpc_error (Json.num_of_Z 1) (-32600)
                          "Invalid JSON-RPC version" |}).
Proof.
  apply (proj1 (protocol_version_check sample_world
                  (envelope "1.0" "get_supported_networks" Json.Null) eq_refl)).
Defined.

(** C8, as stated, fails on the second variant: the BigInt block number
    that the backend returns leaves as a native number (here rounded to the
    nearest double), not as its decimal string. *)
Lemma bigint_as_number_counterexample :
  Api.backend sample_world Api.getLatestBlock [Json.Str "sei"] = inr sample_block
  /\ Json.field "number" [("number", Json.BigInt 9007199254740993)]
     = Json.BigInt 9007199254740993
  /\ Api.Part000.api_mcp sample_world true
       (envelope "2.0" "get_latest_block" (Json.Obj []))
     = ([Api.Backend Api.getLatestBlock [Json.Str "sei"]],
        {| Api.status := 200;
           Api.body :=
             Json.Obj
               [("jsonrpc", Json.Str "2.0"); ("id", Json.num_of_Z 1);
                ("result",
                   Json.Obj
                     [("number", Json.Num (Json.Finite (inject_Z 9007199254740992)));
                      ("hash", Json.Str "0xabc");
                      ("timestamp", Json.Str "2023-11-14T22:13:20.000Z");
                      ("transactions", Json.Arr []);
                      ("gasUsed", Json.Str "21000");
                      ("gasLimit", Json.Str "30000000");
                      ("network", Json.Str "sei")])] |}).
Proof. repeat split; vm_compute; reflexivity. Qed.

(** C8, amended. In [http-server.ts], when the backend operation returns
    [result] and the reply is a success, the reply carries [result]
    serialized with every BigInt, at any depth, replaced by its decimal
    string: what [JSON.stringify] without replacer makes of the coerced
    value. It holds no BigInt, and serialization fails only for a result
    that is [undefined]. *)
Theorem bigints_leave_as_strings (w : Api.world) (req_body : list (string * Json.value))
    (calls : list Api.call) (result r : Json.value) :
  Api.HttpServer.dispatch w (Json.field "method" req_body) (Json.field "params" req_body)
  = (calls, inr result) ->
  Api.HttpServer.serializedResult w result = inr r ->
  Api.HttpServer.api_mcp w true req_body
  = (calls, inr {| Api.status := 200;
                   Api.body := Api.HttpServer.rpc_result (Json.field "id" req_body) r |}) /\
  Json.parse_stringify (Api.undefined_not_json w) (S (Json.depth result))
    Json.no_replacer (coerce_bigints result)
  = Some (inr r) /\
  Json.has_bigint r = false /\
  (forall v, (exists e, Api.HttpServer.serializedResult w v = inl e) <-> v = Json.Undefined).
Proof.
  intros Hd Hs. split; [| split; [| split]].
  - destruct (HttpServer_dispatch_string _ _ _ _ _ Hd) as (m & Hm).
    rewrite (HttpServer_reply w req_body m calls (inr result)); [| rewrite Hm; reflexivity | exact Hd].
    unfold reply_for. rewrite Hs. reflexivity.
  - unfold Api.HttpServer.serializedResult in Hs.
    pose proof (serializedResult_fuel (Api.undefined_not_json w) result) as Hfuel.
    unfold Json.parse_stringify in *.
    rewrite <- replacer_refines_coercion.
    destruct (Json.SerializeJSONProperty _ Api.HttpServer.replacer _ _)
      as [[e | [r' |]] |]; congruence.
  - unfold Api.HttpServer.serializedResult, Json.parse_stringify in Hs.
    destruct (Json.SerializeJSONProperty _ _ _ _) as [[e | [r' |]] |] eqn:E;
      try discriminate.
    injection Hs as <-. eapply serialized_clean. exact E.
  - intros v. split.
    + intros (e & Hv). unfold Api.HttpServer.serializedResult in Hv.
      pose proof (serializedResult_fuel (Api.undefined_not_json w) v) as Hfuel.
      unfold Json.parse_stringify in *.
      destruct (Json.SerializeJSONProperty _ _ _ _) as [[e' | [r' |]] |] eqn:E;
        try congruence.
      * exfalso. eapply replacer_never_throws. exact E.
      * destruct v as [| | b | [q | |] | z | s | items | fields]; simpl in E;
          try discriminate; try reflexivity.
        -- destruct (Json.SerializeJSONArray _ _ _) as [[? | ?] |]; discriminate.
        -- destruct (Json.SerializeJSONObject _ _) as [[? | ?] |]; discriminate.
    + intros ->. eexists. reflexivity.
Qed.

Lemma bigints_leave_as_strings_witness :
  Api.HttpServer.api_mcp sample_world true
    (envelope "2.0" "get_balance" (Json.Obj [("address", Json.Str "0xabc")]))
  = ([Api.Backend Api.getBalance [Json.Str "0xabc"; Json.Str "sei"]],
     inr {| Api.status := 200;
            Api.body :=
              Api.HttpServer.rpc_result (Json.num_of_Z 1)
                (Json.Obj [("wei", Json.Str "1180591620717411303424");
                           ("ether", Json.Str "1180.591620717411303424")]) |}).
Proof.
  apply (proj1 (bigints_leave_as_strings sample_world
                  (envelope "2.0" "get_balance" (Json.Obj [("address", Json.Str "0xabc")]))
                  [Api.Backend Api.getBalance [Json.Str "0xabc"; Json.Str "sei"]]
                  sample_balance
                  (Json.Obj [("wei", Json.Str "1180591620717411303424");
                             ("ether", Json.Str "1180.591620717411303424")])
                  ltac:(vm_compute; reflexivity) ltac:(vm_compute; reflexivity))).
Defined.

(** * Further properties of the code *)

(** ** Streams and messages together *)

Section StreamFacts.
Import Server.

Lemma effective_id_supplied st id :
  Js.truthy_string id = true -> effective_id st (Some id) = Some id.
Proof. intros H. unfold effective_id. simpl. rewrite H. reflexivity. Qed.

Lemma step_keeps_server st i : server st = true -> server (step st i) = true.
Proof.
  intros H. destruct i as [| query random o | t fulfilled | t | query h]; simpl; auto.
  - unfold get_sse. rewrite H. simpl. destruct o; reflexivity.
  - unfold connect_settled.
    destruct (streams st !! t) as [[id [] c] |]; try exact H.
    destruct fulfilled; exact H.
  - unfold on_close. destruct (streams st !! t) as [[id a []] |]; exact H.
Qed.

Lemma step_appends st i :
  exists new, trace (step st i) = trace st ++ new /\
    forall before after t,
      new = before ++ HandlePostMessage t :: after ->
      before = [] /\ exists query id, post_messages st query = Forwarded id t.
Proof.
  destruct i as [| query random o | t fulfilled | t | query h]; simpl.
  - exists []. split; [symmetry; apply app_nil_r |].
    intros [|] ? ? ?; discriminate.
  - unfold get_sse. destruct (negb (server st)); [| destruct o]; simpl;
      eexists; (split; [reflexivity |]);
      intros before after t' Heq;
      repeat (destruct before as [| ? before]; simpl in Heq; try discriminate).
  - unfold connect_settled.
    destruct (streams st !! t) as [[id [] c] |];
      try (exists []; split; [symmetry; apply app_nil_r |];
           intros [|] ? ? ?; discriminate).
    destruct fulfilled; simpl; eexists; (split; [reflexivity |]);
      intros before after t' Heq;
      repeat (destruct before as [| ? before]; simpl in Heq; try discriminate).
  - unfold on_close.
    destruct (streams st !! t) as [[id a []] |];
      try (exists []; split; [symmetry; apply app_nil_r |];
           intros [|] ? ? ?; discriminate).
    simpl. eexists. split; [reflexivity |].
    intros before after t' Heq.
    repeat (destruct before as [| ? before]; simpl in Heq; try discriminate).
  - eexists. split; [reflexivity |].
    intros before after t' Heq.
    destruct (post_messages st query) as [code err n | id t0] eqn:Hpost; simpl in Heq.
    + repeat (destruct before as [| ? before]; simpl in Heq; try discriminate).
    + destruct before as [| b0 before]; simpl in Heq.
      * injection Heq as <- _. split; [reflexivity | eauto].
      * injection Heq as _ Heq. destruct h; simpl in Heq;
          repeat (destruct before as [| ? before]; simpl in Heq; try discriminate).
Qed.
End StreamFacts.

(** X1. On an initialized server, as soon as the [GET /sse] handler has
    run its [try] block, a message addressed to the stream's identifier
    (client-supplied or generated) is forwarded to the new transport; the
    attachment need not have settled. *)
Theorem opened_stream_is_routable (st : Server.state) (query : option string)
    (random : nat -> Q) :
  Server.server st = true ->
  let id := Server.sse_session_id query random in
  let st' := Server.step st (Server.GetSse query random Server.Proceeds) in
  Server.connections st' !! id = Some (length (Server.streams st)) /\
  Server.post_messages st' (Some id) = Server.Forwarded id (length (Server.streams st)) /\
  Server.streams st' !! length (Server.streams st)
  = Some {| Server.sessionId := id; Server.attach := Server.Pending;
            Server.closed := false |}.
Proof.
  intros Hsrv id st'.
  assert (Hst' : st' = {| Server.server := true;
                          Server.connections :=
                            <[id := length (Server.streams st)]> (Server.connections st);
                          Server.streams :=
                            Server.streams st
                            ++ [{| Server.sessionId := id; Server.attach := Server.Pending;
                                   Server.closed := false |}];
                          Server.trace :=
                            Server.trace st
                            ++ [Server.RegistrySet id (length (Server.streams st));
                                Server.Connect (length (Server.streams st))] |}).
  { unfold st'. simpl. unfold Server.get_sse. rewrite Hsrv. reflexivity. }
  assert (Hid : Js.truthy_string id = true) by apply sse_session_id_truthy.
  rewrite Hst'. simpl. split; [apply lookup_insert_eq | split].
  - unfold Server.post_messages.
    rewrite effective_id_supplied by exact Hid. simpl.
    rewrite Hid. simpl. rewrite lookup_insert_eq. reflexivity.
  - apply list_lookup_middle. reflexivity.
Qed.

Lemma opened_stream_is_routable_witness :
  let st := Server.run [Server.Initialized] in
  let id := Server.sse_session_id (Some "abc"%string) any_random in
  let st' := Server.step st (Server.GetSse (Some "abc"%string) any_random Server.Proceeds) in
  Server.connections st' !! id = Some (length (Server.streams st)) /\
  Server.post_messages st' (Some id) = Server.Forwarded id (length (Server.streams st)) /\
  Server.streams st' !! length (Server.streams st)
  = Some {| Server.sessionId := id; Server.attach := Server.Pending;
            Server.closed := false |}.
Proof.
  apply (opened_stream_is_routable (Server.run [Server.Initialized])
           (Some "abc"%string) any_random).
  reflexivity.
Defined.

(** X2. Opening a stream overwrites what was registered under its
    identifier and touches nothing else: afterwards the identifier maps to
    the new transport, whatever it mapped to before (the last writer wins),
    every other identifier keeps its transport, and the registry grows by
    one entry exactly when the identifier was free. *)
Theorem open_is_last_writer_wins (st : Server.state) (query : option string)
    (random : nat -> Q) :
  Server.server st = true ->
  let id := Server.sse_session_id query random in
  let st' := Server.step st (Server.GetSse query random Server.Proceeds) in
  Server.connections st' !! id = Some (length (Server.streams st)) /\
  (forall id', id' <> id ->
     Server.connections st' !! id' = Server.connections st !! id') /\
  size (Server.connections st')
  = match Server.connections st !! id with
    | Some _ => size (Server.connections st)
    | None => S (size (Server.connections st))
    end.
Proof.
  intros Hsrv id st'.
  assert (Hc : Server.connections st'
               = <[id := length (Server.streams st)]> (Server.connections st)).
  { unfold st'. simpl. unfold Server.get_sse. rewrite Hsrv. reflexivity. }
  rewrite Hc. split; [apply lookup_insert_eq | split].
  - intros id' Hne. apply lookup_insert_ne. congruence.
  - destruct (Server.connections st !! id) as [t |] eqn:Hl.
    + apply map_size_insert_Some. eauto.
    + apply map_size_insert_None. exact Hl.
Qed.

Lemma open_is_last_writer_wins_witness :
  let st := Server.run one_open in
  let id := Server.sse_session_id (Some "abc"%string) any_random in
  let st' := Server.step st (Server.GetSse (Some "abc"%string) any_random Server.Proceeds) in
  Server.connections st' !! id = Some (length (Server.streams st)) /\
  (forall id', id' <> id ->
     Server.connections st' !! id' = Server.connections st !! id') /\
  size (Server.connections st')
  = match Server.connections st !! id with
    | Some _ => size (Server.connections st)
    | None => S (size (Server.connections st))
    end.
Proof.
  apply (open_is_last_writer_wins (Server.run one_open) (Some "abc"%string) any_random).
  reflexivity.
Defined.

(** A forwarded message went to what the registry holds under the
    resolved identifier. *)
Lemma forwarded_is_registered (st : Server.state) (query : option string)
    (id : string) (t : nat) :
  Server.post_messages st query = Server.Forwarded id t ->
  Server.connections st !! id = Some t.
Proof.
  intros Hpost. unfold Server.post_messages in Hpost.
  destruct (negb (Server.server st)); [discriminate |].
  destruct (Server.effective_id st query) as [id' |]; [| discriminate].
  destruct (negb (Js.truthy_string id')); [discriminate |].
  destruct (Server.connections st !! id') as [t' |] eqn:Hl; [| discriminate].
  injection Hpost as <- <-. exact Hl.
Qed.

(** X3. In every reachable state a message is only ever forwarded to the
    transport of a stream that was opened under the resolved identifier,
    whose connection is open and whose attachment has not failed: a closed
    stream and a stream that failed to attach receive nothing. *)
Theorem forwarded_only_to_live_stream (inputs : list Server.input)
    (query : option string) (id : string) (t : nat) :
  Server.post_messages (Server.run inputs) query = Server.Forwarded id t ->
  exists s, Server.streams (Server.run inputs) !! t = Some s /\
            Server.sessionId s = id /\ Server.closed s = false /\
            Server.attach s <> Server.Failed.
Proof.
  intros Hpost. apply forwarded_is_registered in Hpost.
  pose proof (registry_ok_run inputs) as (_ & H1 & _).
  destruct (H1 _ _ Hpost) as (s & Hs & Hid & Hc & Ha).
  exists s. auto.
Qed.

Lemma forwarded_only_to_live_stream_witness :
  exists s, Server.streams (Server.run one_open) !! 0%nat = Some s /\
            Server.sessionId s = "abc"%string /\ Server.closed s = false /\
            Server.attach s <> Server.Failed.
Proof.
  apply (forwarded_only_to_live_stream one_open None "abc"%string 0%nat).
  vm_compute. reflexivity.
Defined.

(** X4. In every reachable state, once an open connection has closed, a
    message addressed to its identifier is answered 404 "Session not found",
    also when another connection that is still open had registered under
    the same identifier. *)
Theorem closed_identifier_not_found (inputs : list Server.input) (t : nat)
    (s : Server.stream) :
  Server.streams (Server.run inputs) !! t = Some s ->
  Server.closed s = false ->
  Server.post_messages (Server.step (Server.run inputs) (Server.Close t))
    (Some (Server.sessionId s))
  = Server.Rejected 404 "Session not found" None.
Proof.
  intros Ht Hc. pose proof (registry_ok_run inputs) as (H0 & _ & H2).
  assert (Hsrv : Server.server (Server.run inputs) = true).
  { destruct (Server.server (Server.run inputs)) eqn:E; [reflexivity |].
    destruct (H0 eq_refl) as [_ Hnil]. rewrite Hnil in Ht. discriminate. }
  pose proof (H2 _ _ Ht) as Htruthy.
  simpl. unfold Server.on_close. rewrite Ht.
  destruct s as [id a c]. simpl in *. subst c.
  unfold Server.post_messages.
  rewrite effective_id_supplied by exact Htruthy. simpl.
  rewrite Hsrv, Htruthy. simpl. rewrite lookup_delete_eq. reflexivity.
Qed.

Lemma closed_identifier_not_found_witness :
  Server.post_messages (Server.step (Server.run colliding_opens) (Server.Close 0%nat))
    (Some "abc"%string)
  = Server.Rejected 404 "Session not found" None.
Proof.
  apply (closed_identifier_not_found colliding_opens 0%nat
           {| Server.sessionId := "abc"; Server.attach := Server.Pending;
              Server.closed := false |}).
  - vm_compute. reflexivity.
  - reflexivity.
Defined.

(** X5. The registry does not leak: in every reachable state in which
    every persistent connection has closed, the registry is empty. *)
Theorem registry_empty_when_all_closed (inputs : list Server.input) :
  Server.open_streams (Server.run inputs) = 0%nat ->
  Server.connections (Server.run inputs) = ∅.
Proof.
  intros Hopen. apply map_size_empty_inv.
  pose proof (registered_transports_open _ (registry_ok_run inputs)). lia.
Qed.

Lemma registry_empty_when_all_closed_witness :
  Server.connections (Server.run (one_open ++ [Server.Close 0%nat])) = ∅.
Proof.
  apply (registry_empty_when_all_closed (one_open ++ [Server.Close 0%nat])).
  vm_compute. reflexivity.
Defined.

(** X6. Messages never disturb the sessions: after any number of
    [POST /messages] requests, whatever their queries and however their
    handlers end (completion, rejection, exception), the registry and the
    streams are as before, and every later message gets the reply it would
    have got. *)
Theorem messages_leave_sessions_alone (st : Server.state) (posts : list Server.input) :
  Forall is_post posts ->
  let st' := fold_left Server.step posts st in
  Server.connections st' = Server.connections st /\
  Server.streams st' = Server.streams st /\
  forall query, Server.post_messages st' query = Server.post_messages st query.
Proof.
  intros Hposts. revert st.
  induction Hposts as [| i posts Hi _ IH]; intros st; simpl.
  - repeat split.
  - destruct i as [| | | | query h]; try contradiction.
    destruct (IH (Server.step st (Server.PostMessages query h))) as (Hc & Hs & Hp).
    split; [exact Hc | split; [exact Hs |]].
    intros q. rewrite Hp. reflexivity.
Qed.

Lemma messages_leave_sessions_alone_witness :
  let st' :=
    fold_left Server.step
      [Server.PostMessages (Some "abc"%string) (Server.Rejects "bad message");
       Server.PostMessages None (Server.Throws "boom")]
      (Server.run one_open) in
  Server.connections st' = Server.connections (Server.run one_open) /\
  Server.streams st' = Server.streams (Server.run one_open) /\
  forall query,
    Server.post_messages st' query = Server.post_messages (Server.run one_open) query.
Proof.
  apply (messages_leave_sessions_alone (Server.run one_open)).
  repeat constructor.
Defined.

(** X7. Initialization is one-way: once [startServer()] has resolved, no
    later event makes the server uninitialized again, so no later request
    is answered 503. *)
Theorem server_stays_initialized (st : Server.state) (more : list Server.input) :
  Server.server st = true ->
  Server.server (fold_left Server.step more st) = true /\
  forall query,
    Server.post_messages (fold_left Server.step more st) query
    <> Server.Rejected 503 "Server not initialized" None.
Proof.
  intros Hsrv.
  assert (H : Server.server (fold_left Server.step more st) = true).
  { revert st Hsrv. induction more as [| i more IH]; intros st Hsrv; simpl; [exact Hsrv |].
    apply IH, step_keeps_server, Hsrv. }
  split; [exact H |].
  intros query. unfold Server.post_messages. rewrite H. simpl.
  destruct (Server.effective_id _ query) as [id |]; [| discriminate].
  destruct (negb (Js.truthy_string id)); [discriminate |].
  destruct (Server.connections _ !! id); discriminate.
Qed.

Lemma server_stays_initialized_witness :
  Server.server (fold_left Server.step [Server.Close 0%nat] (Server.run one_open)) = true /\
  forall query,
    Server.post_messages (fold_left Server.step [Server.Close 0%nat] (Server.run one_open))
      query
    <> Server.Rejected 503 "Server not initialized" None.
Proof.
  apply (server_stays_initialized (Server.run one_open) [Server.Close 0%nat]).
  reflexivity.
Defined.

(** X8. Until [startServer()] resolves, the server holds no session: after
    any run of requests and events without the initialization, the registry
    is empty, no stream exists, and all that happened are 503 replies. *)
Theorem nothing_before_initialization (inputs : list Server.input) :
  ~ In Server.Initialized inputs ->
  Server.server (Server.run inputs) = false /\
  Server.connections (Server.run inputs) = ∅ /\
  Server.streams (Server.run inputs) = [] /\
  Forall (fun e => e = Server.Reply 503 "Server not initialized")
    (Server.trace (Server.run inputs)).
Proof.
  induction inputs as [| i inputs IH] using rev_ind; intros Hnot.
  - repeat split. constructor.
  - rewrite run_snoc.
    destruct IH as (Hsrv & Hc & Hs & Htr).
    { intros Hin. apply Hnot, in_or_app. left. exact Hin. }
    destruct i as [| query random o | t fulfilled | t | query h]; simpl.
    + exfalso. apply Hnot, in_or_app. right. left. reflexivity.
    + unfold Server.get_sse. rewrite Hsrv. simpl.
      repeat split; auto. apply Forall_app. split; [exact Htr | repeat constructor].
    + unfold Server.connect_settled. rewrite Hs. simpl. auto.
    + unfold Server.on_close. rewrite Hs. simpl. auto.
    + repeat split; auto. apply Forall_app. split; [exact Htr |].
      unfold Server.post_messages. rewrite Hsrv. simpl. repeat constructor.
Qed.

Lemma nothing_before_initialization_witness :
  Server.server
    (Server.run [Server.GetSse (Some "abc"%string) any_random Server.Proceeds;
                 Server.PostMessages (Some "abc"%string) Server.Completes]) = false /\
  Server.connections
    (Server.run [Server.GetSse (Some "abc"%string) any_random Server.Proceeds;
                 Server.PostMessages (Some "abc"%string) Server.Completes]) = ∅ /\
  Server.streams
    (Server.run [Server.GetSse (Some "abc"%string) any_random Server.Proceeds;
                 Server.PostMessages (Some "abc"%string) Server.Completes]) = [] /\
  Forall (fun e => e = Server.Reply 503 "Server not initialized")
    (Server.trace
       (Server.run [Server.GetSse (Some "abc"%string) any_random Server.Proceeds;
                    Server.PostMessages (Some "abc"%string) Server.Completes])).
Proof.
  apply (nothing_before_initialization
           [Server.GetSse (Some "abc"%string) any_random Server.Proceeds;
            Server.PostMessages (Some "abc"%string) Server.Completes]).
  simpl. intuition discriminate.
Defined.

(** X9. In every run, each call of [transport.handlePostMessage] comes
    after the [connections.set] that registered its transport and after the
    call of [server.connect] on it: no handler runs on a transport that was
    not handed to the server. *)
Theorem handler_runs_after_connect (inputs : list Server.input) (t : nat)
    (before after : list Server.event) :
  Server.trace (Server.run inputs) = before ++ Server.HandlePostMessage t :: after ->
  In (Server.Connect t) before /\ exists id, In (Server.RegistrySet id t) before.
Proof.
  assert (Hconnect : forall inputs t before after,
             Server.trace (Server.run inputs)
             = before ++ Server.HandlePostMessage t :: after ->
             In (Server.Connect t) before).
  { clear. intros inputs.
    induction inputs as [| i inputs IH] using rev_ind; intros t before after Heq.
    - destruct before; discriminate.
    - rewrite run_snoc in Heq.
      destruct (step_appends (Server.run inputs) i) as (new & Hnew & Hhandle).
      rewrite Hnew in Heq.
      apply app_eq_app in Heq as (l & [[Htr Hl] | [Hb Hl]]).
      + destruct l as [| e0 l].
        * simpl in Hl. rewrite app_nil_r in Htr. subst before.
          destruct (Hhandle [] after t (eq_sym Hl)) as (_ & query & id & Hpost).
          apply forwarded_is_registered in Hpost.
          pose proof (registry_ok_run inputs) as (_ & R1 & _).
          destruct (R1 _ _ Hpost) as (s & Hs & _).
          pose proof (trace_ok_run inputs) as (_ & _ & _ & _ & T5). eauto.
        * injection Hl as <- _. exact (IH _ _ _ Htr).
      + destruct (Hhandle _ _ _ Hl) as (-> & query & id & Hpost).
        rewrite app_nil_r in Hb. subst before.
        apply forwarded_is_registered in Hpost.
        pose proof (registry_ok_run inputs) as (_ & R1 & _).
        destruct (R1 _ _ Hpost) as (s & Hs & _).
        pose proof (trace_ok_run inputs) as (_ & _ & _ & _ & T5). eauto. }
  intros Heq. pose proof (Hconnect _ _ _ _ Heq) as Hin. split; [exact Hin |].
  apply in_split in Hin as (b1 & b2 & ->).
  rewrite <- app_assoc in Heq. simpl in Heq.
  pose proof (trace_ok_run inputs) as (T1 & _).
  destruct (T1 t _ _ Heq) as (x & Hx & id & ->).
  exists id. apply in_or_app. left. exact Hx.
Qed.

Lemma handler_runs_after_connect_witness :
  In (Server.Connect 0%nat) [Server.RegistrySet "abc" 0%nat; Server.Connect 0%nat] /\
  exists id, In (Server.RegistrySet id 0%nat)
               [Server.RegistrySet "abc" 0%nat; Server.Connect 0%nat].
Proof.
  apply (handler_runs_after_connect
           (one_open ++ [Server.PostMessages None Server.Completes]) 0%nat
           [Server.RegistrySet "abc" 0%nat; Server.Connect 0%nat] []).
  vm_compute. reflexivity.
Defined.

(** ** The informational endpoints *)

(** X10. The root endpoint never reports a connection while it reports
    "initializing": in every reachable state its [activeConnections] is 0
    unless its [status] is "ready". *)
Theorem root_reports_no_session_while_initializing (inputs : list Server.input)
    (endpoints : list (string * Json.value)) :
  let reply := Info.root endpoints (Server.run inputs) in
  Json.get_opt (Api.body reply) "status" = Json.Str "initializing" ->
  Json.get_opt (Api.body reply) "activeConnections" = Json.num_of_Z 0.
Proof.
  intros reply. unfold reply, Info.root. simpl.
  pose proof (registry_ok_run inputs) as (H0 & _).
  destruct (Server.server (Server.run inputs)); [discriminate |].
  intros _. destruct (H0 eq_refl) as [-> _]. reflexivity.
Qed.

Lemma root_reports_no_session_while_initializing_witness :
  Json.get_opt (Api.body (Info.root Info.endpoints_http_server (Server.run [])))
    "activeConnections"
  = Json.num_of_Z 0.
Proof.
  apply (root_reports_no_session_while_initializing [] Info.endpoints_http_server).
  reflexivity.
Defined.

(** The keys that the [Map] lists are the keys of the registry. *)
Lemma listed_iff_registered (st : Server.state) (id : string) :
  order_ok st ->
  In id (Info.session_ids st) <-> Server.connections st !! id <> None.
Proof.
  intros [H1 _]. unfold Info.session_ids. rewrite <- H1. unfold registry_after.
  rewrite <- list_elem_of_In.
  pose proof (not_elem_of_list_to_map (M := gmap string)
                (Server.entries_after (Server.trace st)) id) as Hiff.
  split.
  - intros Hin Hnone. apply Hiff in Hnone. exact (Hnone Hin).
  - intros Hsome.
    destruct (decide (id ∈ (Server.entries_after (Server.trace st)).*1)) as [Hin | Hnot];
      [exact Hin |].
    exfalso. apply Hsome, Hiff, Hnot.
Qed.

(** X11. What the registry-reporting [/health] handler lists can be
    used, and is in the order of the [Map]: in every reachable state its
    [connectedSessionIds] are pairwise distinct, as many as its
    [activeConnections], and exactly the identifiers to which a message is
    forwarded; and a stream that is opened under an identifier which is not
    registered is listed last, while one that is opened under a registered
    identifier leaves the list as it is. *)
Theorem health_lists_routable_sessions (inputs : list Server.input) :
  let st := Server.run inputs in
  let ids := Info.session_ids st in
  Json.get_opt (Api.body (Info.health st)) "connectedSessionIds"
  = Json.Arr (List.map Json.Str ids) /\
  Json.get_opt (Api.body (Info.health st)) "activeConnections"
  = Json.num_of_Z (Z.of_nat (length ids)) /\
  NoDup ids /\
  (forall id,
     In id ids <-> exists t, Server.post_messages st (Some id) = Server.Forwarded id t) /\
  (forall query random,
     Server.server st = true ->
     let id := Server.sse_session_id query random in
     Info.session_ids (Server.step st (Server.GetSse query random Server.Proceeds))
     = match Server.connections st !! id with
       | Some _ => ids
       | None => ids ++ [id]
       end).
Proof.
  intros st ids.
  pose proof (order_ok_run inputs) as Hord. fold st in Hord.
  pose proof Hord as [O1 O2].
  split; [reflexivity | split; [| split; [exact O2 | split]]].
  - simpl. unfold Info.count, ids, Info.session_ids. rewrite <- O1.
    unfold registry_after. rewrite length_map.
    rewrite <- length_map_to_list.
    rewrite (Permutation_length (map_to_list_to_map _ O2)). reflexivity.
  - intros id.
    pose proof (registry_ok_run inputs) as (H0 & H1 & H2). fold st in H0, H1, H2.
    split.
    + intros Hin. apply (listed_iff_registered st id Hord) in Hin.
      destruct (Server.connections st !! id) as [t |] eqn:Hl; [| congruence].
      destruct (H1 _ _ Hl) as (s & Hs & Hid & _).
      pose proof (H2 _ _ Hs) as Htruthy. rewrite Hid in Htruthy.
      assert (Hsrv : Server.server st = true).
      { destruct (Server.server st) eqn:E; [reflexivity |].
        destruct (H0 eq_refl) as [_ Hnil]. rewrite Hnil in Hs. discriminate. }
      exists t. unfold Server.post_messages.
      rewrite effective_id_supplied by exact Htruthy.
      rewrite Hsrv, Htruthy, Hl. reflexivity.
    + intros (t & Hpost). apply forwarded_is_registered in Hpost.
      apply (listed_iff_registered st id Hord). congruence.
  - intros query random Hsrv id.
    unfold Info.session_ids at 1. simpl. unfold Server.get_sse. rewrite Hsrv. simpl.
    rewrite entries_after_app. simpl. fold id.
    destruct (Server.connections st !! id) as [t |] eqn:Hl.
    + apply map_set_keys_present.
      apply (listed_iff_registered st id Hord). congruence.
    + apply map_set_keys_absent. intros Hin.
      apply (listed_iff_registered st id Hord) in Hin. congruence.
Qed.

Lemma health_lists_routable_sessions_witness :
  Info.session_ids
    (Server.step (Server.run opens_zz_b)
       (Server.GetSse (Some "a"%string) any_random Server.Proceeds))
  = ["zz"; "b"; "a"]%string.
Proof.
  rewrite (proj2 (proj2 (proj2 (proj2 (health_lists_routable_sessions opens_zz_b))))
             (Some "a"%string) any_random eq_refl).
  reflexivity.
Defined.

(** X12. In [http-server.ts] the registry-reporting [/health] handler is
    dead: whatever the request and however Express matches paths, the
    earlier [/health] registration answers first, so that [GET /health]
    never reports [activeConnections] there. In the second file the same
    handler does answer. *)
Theorem health_route_is_shadowed (matches : string -> string -> bool)
    (v : Info.verb) (path : string) :
  Info.route matches Info.routes_http_server v path <> Some Info.Health /\
  (matches "/health"%string path = true ->
   Info.route matches Info.routes_http_server Info.GET path = Some Info.HealthStatus) /\
  (matches "/health"%string path = true -> matches "/sse"%string path = false ->
   Info.route matches Info.routes_part_000 Info.GET path = Some Info.Health).
Proof.
  split; [| split].
  - unfold Info.routes_http_server. simpl.
    destruct v; simpl;
      repeat match goal with
             | |- context [if matches ?p path then _ else _] =>
                 destruct (matches p path) eqn:?
             end; congruence.
  - intros H. simpl. rewrite H. reflexivity.
  - intros H Hs. simpl. rewrite Hs, H. reflexivity.
Qed.

Lemma health_route_is_shadowed_witness :
  Info.route exact_path Info.routes_http_server Info.GET "/health" = Some Info.HealthStatus.
Proof.
  apply (proj1 (proj2 (health_route_is_shadowed exact_path Info.GET "/health"))).
  reflexivity.
Defined.

(** ** The backend operations of [http-server.ts] *)

Section OperationFacts.
Import Json Api.

Lemma read_args_object (fields : list (string * value)) (names : list string) :
  read_args (Obj fields) names = ret (List.map (fun k => field k fields) names).
Proof.
  induction names as [| k names IH]; simpl; [reflexivity |].
  rewrite IH. reflexivity.
Qed.

Lemma call_with_network_object (w : world) (svc : service) (names : list string)
    (fields : list (string * value)) :
  call_with_network w svc names (Obj fields)
  = ([Backend svc (List.map (fun k => field k fields) names
                     ++ [or_else (field "network" fields) (Str "sei")])],
     backend w svc (List.map (fun k => field k fields) names
                      ++ [or_else (field "network" fields) (Str "sei")])).
Proof.
  unfold call_with_network. rewrite read_args_object. simpl.
  destruct (backend w svc _); reflexivity.
Qed.

End OperationFacts.

(** X13. Thirteen methods of [http-server.ts] are one table: for a
    [params] object, each makes exactly one backend call, of its service
    function on its fields of [params] in order followed by
    [params.network] or, when that is falsy, "sei"; and the reply is the
    serialized result when the call returns, the error -32603 with the
    thrown error's message when it throws, always under HTTP status 200. *)
Theorem network_operation_reply (w : Api.world) (req_body fields : list (string * Json.value))
    (m : string) (svc : Api.service) (names : list string) :
  In (m, svc, names) network_operations ->
  Json.field "method" req_body = Json.Str m ->
  Json.field "params" req_body = Json.Obj fields ->
  let args :=
    List.map (fun k => Json.field k fields) names
    ++ [Json.or_else (Json.field "network" fields) (Json.Str "sei")] in
  Api.HttpServer.api_mcp w true req_body
  = ([Api.Backend svc args],
     inr (reply_for w (Json.field "id" req_body) (Api.backend w svc args))).
Proof.
  intros Hin Hm Hp args. apply (HttpServer_reply w req_body m); rewrite Hm; [reflexivity |].
  rewrite Hp.
  unfold network_operations in Hin. simpl in Hin.
  repeat (destruct Hin as [Hin | Hin];
          [injection Hin as <- <- <-;
           exact (call_with_network_object w _ _ fields) |]).
  contradiction.
Qed.

Lemma network_operation_reply_witness :
  Api.HttpServer.api_mcp sample_world true
    (envelope "2.0" "get_latest_block" (Json.Obj []))
  = ([Api.Backend Api.getLatestBlock [Json.Str "sei"]],
     inr (reply_for sample_world (Json.num_of_Z 1) (inr sample_block))).
Proof.
  apply (network_operation_reply sample_world
           (envelope "2.0" "get_latest_block" (Json.Obj [])) []
           "get_latest_block" Api.getLatestBlock []).
  - simpl. tauto.
  - reflexivity.
  - reflexivity.
Defined.

(** X14. Without [params] no backend is reached: for every method of
    [http-server.ts] other than [get_supported_networks], a request whose
    [params] is missing or [null] makes no backend call and no fetch, and is
    answered with the error -32603 (the TypeError of the first property
    read). *)
Theorem missing_params_reach_no_backend (w : Api.world)
    (req_body : list (string * Json.value)) (m : string) :
  In m (Api.HttpServer.methods w) ->
  m <> "get_supported_networks"%string ->
  Json.field "method" req_body = Json.Str m ->
  Json.nullish (Json.field "params" req_body) = true ->
  exists message,
    Api.HttpServer.api_mcp w true req_body
    = ([], inr {| Api.status := 200;
                  Api.body := Api.HttpServer.rpc_error (Json.field "id" req_body) (-32603)
                                message |}).
Proof.
  intros Hin Hne Hm Hp. unfold Api.HttpServer.api_mcp. simpl. rewrite Hm.
  destruct (Json.field "params" req_body); try discriminate;
    simpl in Hin;
    repeat (destruct Hin as [<- | Hin]; [try congruence; eexists; reflexivity |]);
    contradiction.
Qed.

Lemma missing_params_reach_no_backend_witness :
  exists message,
    Api.HttpServer.api_mcp sample_world true
      [("jsonrpc", Json.Str "2.0"); ("id", Json.num_of_Z 1);
       ("method", Json.Str "get_balance")]
    = ([], inr {| Api.status := 200;
                  Api.body := Api.HttpServer.rpc_error (Json.num_of_Z 1) (-32603)
                                message |}).
Proof.
  apply (missing_params_reach_no_backend sample_world
           [("jsonrpc", Json.Str "2.0"); ("id", Json.num_of_Z 1);
            ("method", Json.Str "get_balance")] "get_balance").
  - simpl. tauto.
  - discriminate.
  - reflexivity.
  - reflexivity.
Defined.

(** X15. Every reply of [http-server.ts] is a JSON-RPC envelope with the
    version "2.0", the request's [id] as it came, and exactly one of
    [result] and [error]; call-level failures never show in the HTTP status,
    which is 200 once the server is initialized and 503, with no call made,
    before. The handler ends without a reply in one case only: the server
    is initialized and the method cannot be converted to a string, so that
    the log line of the [try] block and then the log line of the [catch]
    block throw; no call was made then. *)
Theorem http_server_reply_shape (w : Api.world) (server : bool)
    (req_body : list (string * Json.value)) :
  (forall calls reply,
     Api.HttpServer.api_mcp w server req_body = (calls, inr reply) ->
     Api.status reply = (if server then 200 else 503) /\
     (server = false -> calls = []) /\
     exists key v,
       (key = "result"%string \/ key = "error"%string) /\
       Api.body reply
       = Json.Obj [("jsonrpc", Json.Str "2.0"); ("id", Json.field "id" req_body);
                   (key, v)]) /\
  (forall calls e,
     Api.HttpServer.api_mcp w server req_body = (calls, inl e) <->
     server = true /\ calls = [] /\
     Api.toString w (Json.field "method" req_body) = inl e).
Proof.
  destruct server.
  - destruct (Api.toString w (Json.field "method" req_body)) as [e0 | text] eqn:Ht.
    + assert (Hrej : Api.HttpServer.api_mcp w true req_body = ([], inl e0)).
      { unfold Api.HttpServer.api_mcp. simpl. rewrite Ht. reflexivity. }
      rewrite Hrej. split.
      * intros calls reply H. discriminate.
      * intros calls e. split.
        -- intros [= <- <-]. auto.
        -- intros (_ & -> & [= ->]). reflexivity.
    + destruct (Api.HttpServer.dispatch w (Json.field "method" req_body)
                  (Json.field "params" req_body)) as [calls0 outcome] eqn:Hd.
      rewrite (HttpServer_reply w req_body text calls0 outcome Ht Hd). split.
      * intros calls reply [= <- <-]. unfold reply_for.
        destruct outcome as [e | v]; [| destruct (Api.HttpServer.serializedResult w v)];
          simpl; (split; [reflexivity | split; [discriminate |]]);
          eexists _, _; (split; [| reflexivity]); auto.
      * intros calls e. split; [discriminate |].
        intros (_ & _ & H). discriminate.
  - simpl. split.
    + intros calls reply [= <- <-]. simpl.
      split; [reflexivity | split; [reflexivity |]].
      eexists _, _. split; [| reflexivity]. auto.
    + intros calls e. split; [discriminate |]. intros (H & _). discriminate.
Qed.

Lemma http_server_reply_shape_witness :
  Api.HttpServer.api_mcp sample_world true unprintable_method
  = ([], inl (Json.JsError "Cannot convert object to primitive value")).
Proof.
  apply (proj2 (proj2 (http_server_reply_shape sample_world true unprintable_method)
                  [] (Json.JsError "Cannot convert object to primitive value"))).
  split; [reflexivity | split; reflexivity].
Defined.

(** X16. [get_balance] on a native ([sei1...]) address whose primary REST
    endpoint answers [ok] with a body that has balances returns that body's
    balances with the address and the network ("sei" by default), after one
    fetch and without calling the EVM [getBalance]. *)
Theorem get_balance_from_rest (w : Api.world) (fields : list (string * Json.value))
    (a : string) (resp : Api.fetch_response) (data : Json.value) :
  Json.field "address" fields = Json.Str a ->
  String.prefix "sei1" a = true ->
  Api.fetch w (Api.HttpServer.primary_api +:+ a) = inr resp ->
  Api.ok resp = true ->
  Api.json resp = inr data ->
  Json.truthy data = true ->
  Json.truthy (Json.get_opt data "balances") = true ->
  Api.HttpServer.get_balance w (Json.Obj fields)
  = ([Api.Fetch (Api.HttpServer.primary_api +:+ a)],
     inr (Json.Obj [("address", Json.Str a);
                    ("balances", Json.get_opt data "balances");
                    ("network",
                       Json.or_else (Json.field "network" fields) (Json.Str "sei"))])).
Proof.
  intros Ha Hpre Hfetch Hok Hjson Hdata Hbal.
  unfold Api.HttpServer.get_balance. simpl. rewrite Ha. simpl. rewrite Hpre. simpl.
  unfold Api.HttpServer.fetch_balances, Api.await_fetch. simpl.
  rewrite Hfetch. simpl. rewrite Hok. simpl. rewrite Hjson. simpl.
  rewrite Hdata, Hbal. reflexivity.
Qed.

Lemma get_balance_from_rest_witness :
  Api.HttpServer.get_balance rest_world (Json.Obj [("address", Json.Str "sei1qq")])
  = ([Api.Fetch (Api.HttpServer.primary_api +:+ "sei1qq")],
     inr (Json.Obj [("address", Json.Str "sei1qq");
                    ("balances",
                       Json.Arr [Json.Obj [("denom", Json.Str "usei");
                                           ("amount", Json.Str "42")]]);
                    ("network", Json.Str "sei")])).
Proof.
  apply (get_balance_from_rest rest_world [("address", Json.Str "sei1qq")] "sei1qq"
           _ _ eq_refl eq_refl eq_refl eq_refl eq_refl eq_refl eq_refl).
Defined.

(** X17. [get_balance] never surfaces a failure of the REST endpoints.
    For a native address it makes one or two fetches, the primary endpoint
    first, and then either returns balances read from a REST body or ends
    as the EVM [getBalance] called last on the address and the network
    ends; for any other address string it makes no fetch at all and is that
    one [getBalance] call. *)
Theorem get_balance_falls_back (w : Api.world) (fields : list (string * Json.value))
    (a : string) :
  Json.field "address" fields = Json.Str a ->
  let net := Json.or_else (Json.field "network" fields) (Json.Str "sei") in
  let evm := Api.Backend Api.getBalance [Json.Str a; net] in
  (String.prefix "sei1" a = false ->
   Api.HttpServer.get_balance w (Json.Obj fields)
   = ([evm], Api.backend w Api.getBalance [Json.Str a; net])) /\
  (String.prefix "sei1" a = true ->
   exists fetches,
     (fetches = [Api.Fetch (Api.HttpServer.primary_api +:+ a)] \/
      fetches = [Api.Fetch (Api.HttpServer.primary_api +:+ a);
                 Api.Fetch (Api.HttpServer.fallback_api +:+ a)]) /\
     ((exists balances,
         Api.HttpServer.get_balance w (Json.Obj fields)
         = (fetches,
            inr (Json.Obj [("address", Json.Str a); ("balances", balances);
                           ("network", net)]))) \/
      Api.HttpServer.get_balance w (Json.Obj fields)
      = (fetches ++ [evm], Api.backend w Api.getBalance [Json.Str a; net]))).
Proof.
  intros Ha net evm.
  assert (Hevm : Api.call_with_network w Api.getBalance ["address"] (Json.Obj fields)
                 = ([evm], Api.backend w Api.getBalance [Json.Str a; net])).
  { rewrite call_with_network_object. simpl. rewrite Ha. reflexivity. }
  unfold Api.HttpServer.get_balance.
  set (evmcall := Api.call_with_network w Api.getBalance ["address"] (Json.Obj fields)) in *.
  clearbody evmcall. subst evmcall.
  set (out := Api.backend w Api.getBalance [Json.Str a; net]). clearbody out.
  simpl. rewrite Ha. simpl.
  split; intros Hpre; rewrite Hpre; [reflexivity |].
  unfold Api.HttpServer.fetch_balances, Api.await_fetch, Api.describe. simpl.
  repeat match goal with
         | |- context [Api.fetch w ?u] =>
             destruct (Api.fetch w u) as [? | [[] ? ? [? | ?]]]; simpl
         | |- context [match ?e with Json.JsError _ => _ | Json.Thrown _ => _ end] =>
             is_var e; destruct e; simpl
         | |- context [Api.toString w ?v] =>
             let E := fresh "E" in
             destruct (Api.toString w v) as [? | ?] eqn:E;
             [apply toString_error in E; subst |]; simpl
         | |- context [Json.truthy ?d && ?b] => destruct (Json.truthy d && b); simpl
         end.
  all: first
    [ congruence
    | solve [eexists; split; [left; reflexivity |];
             first [left; eexists; reflexivity | right; reflexivity]]
    | solve [eexists; split; [right; reflexivity |];
             first [left; eexists; reflexivity | right; reflexivity]] ].
Qed.

Lemma get_balance_falls_back_witness :
  Api.HttpServer.get_balance sample_world (Json.Obj [("address", Json.Str "0xabc")])
  = ([Api.Backend Api.getBalance [Json.Str "0xabc"; Json.Str "sei"]],
     Api.backend sample_world Api.getBalance [Json.Str "0xabc"; Json.Str "sei"]).
Proof.
  apply (proj1 (get_balance_falls_back sample_world [("address", Json.Str "0xabc")]
                  "0xabc" eq_refl)).
  reflexivity.
Defined.

(** What [estimate_gas] and [read_contract] do with a [params] object. *)
Lemma estimate_gas_object (w : Api.world) (fields : list (string * Json.value)) :
  Api.HttpServer.estimate_gas w (Json.Obj fields)
  = match Api.js_BigInt w (Json.or_else (Json.field "value" fields) (Json.Str "0")) with
    | inl e => ([], inl e)
    | inr big =>
        let gasParams :=
          Json.Obj [("to", Json.field "to" fields);
                    ("data", Json.or_else (Json.field "data" fields) (Json.Str "0x"));
                    ("value", Json.BigInt big)] in
        let net := Json.or_else (Json.field "network" fields) (Json.Str "sei") in
        ([Api.Backend Api.estimateGas [gasParams; net]],
         Api.backend w Api.estimateGas [gasParams; net])
    end.
Proof.
  unfold Api.HttpServer.estimate_gas. simpl.
  destruct (Api.js_BigInt w _) as [e | big]; simpl; [reflexivity |].
  destruct (Api.backend w Api.estimateGas _); reflexivity.
Qed.

Lemma read_contract_object (w : Api.world) (fields : list (string * Json.value)) :
  Api.HttpServer.read_contract w (Json.Obj fields)
  = match (match Json.field "abi" fields with
           | Json.Str text => Api.JSON_parse w text
           | abi => inr abi
           end) with
    | inl e => ([], inl e)
    | inr parsedAbi =>
        let contractParams :=
          Json.Obj [("address", Json.field "contractAddress" fields);
                    ("abi", parsedAbi);
                    ("functionName", Json.field "functionName" fields);
                    ("args", Json.or_else (Json.field "args" fields) (Json.Arr []));
                    ("network",
                       Json.or_else (Json.field "network" fields) (Json.Str "sei"))] in
        ([Api.Backend Api.readContract [contractParams]],
         Api.backend w Api.readContract [contractParams])
    end.
Proof.
  unfold Api.HttpServer.read_contract. simpl.
  destruct (Json.field "abi" fields) as [| | b | n | z | text | items | fs]; simpl;
    try (destruct (Api.backend w Api.readContract _); reflexivity).
  destruct (Api.JSON_parse w text) as [e | parsed]; simpl; [reflexivity |].
  destruct (Api.backend w Api.readContract _); reflexivity.
Qed.

(** X18. Conversions come before the backend: when [BigInt(params.value
    || '0')] throws in [estimate_gas], or [JSON.parse] of a string [abi]
    throws in [read_contract], no backend call is made and the reply is the
    error -32603 with the message of what was thrown. *)
Theorem failed_conversion_reaches_no_backend (w : Api.world)
    (req_body fields : list (string * Json.value)) (e : Json.exn) :
  Json.field "params" req_body = Json.Obj fields ->
  (Json.field "method" req_body = Json.Str "estimate_gas" ->
   Api.js_BigInt w (Json.or_else (Json.field "value" fields) (Json.Str "0")) = inl e ->
   Api.HttpServer.api_mcp w true req_body
   = ([], inr (reply_for w (Json.field "id" req_body) (inl e)))) /\
  (forall text,
     Json.field "method" req_body = Json.Str "read_contract" ->
     Json.field "abi" fields = Json.Str text ->
     Api.JSON_parse w text = inl e ->
     Api.HttpServer.api_mcp w true req_body
     = ([], inr (reply_for w (Json.field "id" req_body) (inl e)))).
Proof.
  intros Hp. split.
  - intros Hm Hbig.
    apply (HttpServer_reply w req_body "estimate_gas"); rewrite Hm; [reflexivity |].
    rewrite Hp.
    change (Api.HttpServer.estimate_gas w (Json.Obj fields) = ([], inl e)).
    rewrite estimate_gas_object, Hbig. reflexivity.
  - intros text Hm Habi Hparse.
    apply (HttpServer_reply w req_body "read_contract"); rewrite Hm; [reflexivity |].
    rewrite Hp.
    change (Api.HttpServer.read_contract w (Json.Obj fields) = ([], inl e)).
    rewrite read_contract_object, Habi, Hparse. reflexivity.
Qed.

Lemma failed_conversion_reaches_no_backend_witness :
  Api.HttpServer.api_mcp sample_world true
    (envelope "2.0" "read_contract" (Json.Obj [("abi", Json.Str "[")]))
  = ([], inr (reply_for sample_world (Json.num_of_Z 1)
                (inl (Json.JsError "Unexpected end of JSON input")))).
Proof.
  apply (proj2 (failed_conversion_reaches_no_backend sample_world
                  (envelope "2.0" "read_contract" (Json.Obj [("abi", Json.Str "[")]))
                  [("abi", Json.Str "[")] (Json.JsError "Unexpected end of JSON input")
                  eq_refl) "["%string eq_refl eq_refl eq_refl).
Defined.

(** ** The second variant of the direct-call endpoint *)

Section Part000Facts.
Import Json Api.

Abbreviation bigint_error := (JsError "Do not know how to serialize a BigInt").

Lemma SerializeJSONProperty_bigint (fuel : nat) :
  forall key v,
    (depth v < fuel)%nat -> has_bigint v = true ->
    SerializeJSONProperty fuel no_replacer key v = Some (inl bigint_error).
Proof.
  induction fuel as [| fuel IH]; intros key v Hd Hv; [lia |].
  simpl. unfold no_replacer at 1.
  destruct v as [| | b | [q | |] | z | s | items | fields]; simpl in *;
    try discriminate; try reflexivity.
  - assert (Hitems : forall i,
               SerializeJSONArray (SerializeJSONProperty fuel no_replacer) i items
               = Some (inl bigint_error)).
    { assert (Hdepth : forall x, In x items -> (depth x < fuel)%nat).
      { intros x Hin. pose proof (depth_item x items Hin). lia. }
      clear Hd. induction items as [| x items IHi]; intros i; simpl in *; [discriminate |].
      destruct (has_bigint x) eqn:Hx.
      - rewrite (IH _ x (Hdepth x (or_introl eq_refl)) Hx). reflexivity.
      - simpl in Hv.
        destruct (SerializeJSONProperty fuel no_replacer (index_key i) x)
          as [[e | o] |] eqn:E.
        + exfalso. exact (no_replacer_throws_on_bigint_only _ _ _ _ Hx E).
        + rewrite (IHi Hv (fun y Hy => Hdepth y (or_intror Hy))). reflexivity.
        + exfalso. eapply (serialize_fuel no_replacer no_replacer_depth); [| exact E].
          apply Hdepth. left. reflexivity. }
    rewrite Hitems. reflexivity.
  - assert (Hfields :
             SerializeJSONObject (SerializeJSONProperty fuel no_replacer) fields
             = Some (inl bigint_error)).
    { assert (Hdepth : forall x, In x (List.map snd fields) -> (depth x < fuel)%nat).
      { intros x Hin. pose proof (depth_field x fields Hin). lia. }
      clear Hd. induction fields as [| [k x] fields IHf]; simpl in *; [discriminate |].
      destruct (has_bigint x) eqn:Hx.
      - rewrite (IH _ x (Hdepth x (or_introl eq_refl)) Hx). reflexivity.
      - simpl in Hv.
        destruct (SerializeJSONProperty fuel no_replacer k x) as [[e | o] |] eqn:E.
        + exfalso. exact (no_replacer_throws_on_bigint_only _ _ _ _ Hx E).
        + rewrite (IHf Hv (fun y Hy => Hdepth y (or_intror Hy))). reflexivity.
        + exfalso. eapply (serialize_fuel no_replacer no_replacer_depth); [| exact E].
          apply Hdepth. left. reflexivity. }
    rewrite Hfields. reflexivity.
Qed.

(** [JSON.stringify] without replacer throws exactly on a value that
    holds a BigInt. *)
Lemma JSON_stringify_spec (v : value) :
  Part000.JSON_stringify v = if has_bigint v then inl bigint_error else inr tt.
Proof.
  unfold Part000.JSON_stringify. destruct (has_bigint v) eqn:Hv.
  - rewrite SerializeJSONProperty_bigint by (auto; lia). reflexivity.
  - destruct (SerializeJSONProperty _ _ _ _) as [[e | o] |] eqn:E; try reflexivity.
    exfalso. exact (no_replacer_throws_on_bigint_only _ _ _ _ Hv E).
Qed.

Lemma try_catch_returns {A} (m : M A) (h : exn -> A) :
  exists calls a, try_catch m (fun e => ret (h e)) = (calls, inr a).
Proof.
  destruct m as [c [e | a]]; simpl; eauto.
Qed.

(** The [switch] of the second variant always yields a result for a
    method that can be converted to a string (as it was, by the log line
    before it): its two backend cases catch whatever is thrown. *)
Lemma Part000_dispatch_returns (w : world) (method params : value) (text : string) :
  toString w method = inr text ->
  exists calls result, Part000.dispatch w method params = (calls, inr result).
Proof.
  intros Ht. unfold Part000.dispatch, Part000.cases. simpl.
  destruct (is_string method "get_supported_networks"); [unfold ret; eauto |].
  destruct (is_string method "get_balance"); [unfold ret; eauto |].
  destruct (is_string method "get_latest_block"); [apply try_catch_returns |].
  destruct (is_string method "get_transaction"); [apply try_catch_returns |].
  rewrite Ht. simpl. eauto.
Qed.

(** The reply of the second variant to a valid envelope, from the result
    of its [switch]. *)
Lemma Part000_reply (w : world) (req_body : list (string * value)) (text : string)
    (calls : list call) (result : value) :
  is_string (field "jsonrpc" req_body) "2.0" = true ->
  truthy (field "method" req_body) = true ->
  toString w (field "method" req_body) = inr text ->
  Part000.dispatch w (field "method" req_body) (field "params" req_body)
  = (calls, inr result) ->
  Part000.api_mcp w true req_body
  = (calls,
     if has_bigint (field "id" req_body) || has_bigint result then
       internal_error (field "id" req_body) "Do not know how to serialize a BigInt"
     else
       {| status := 200;
          body := Obj [("jsonrpc", Str "2.0"); ("id", field "id" req_body);
                       ("result", result)] |}).
Proof.
  intros Hv Hm Ht Hd. unfold Part000.api_mcp. simpl. rewrite Hv, Hm. simpl.
  rewrite Ht. simpl.
  rewrite Hd. simpl. rewrite JSON_stringify_spec. simpl.
  rewrite orb_false_r.
  destruct (has_bigint (field "id" req_body) || has_bigint result); simpl;
    rewrite app_nil_r; reflexivity.
Qed.

(** The reply of the second variant to a valid envelope whose method its
    log line cannot convert. *)
Lemma Part000_unprintable (w : world) (req_body : list (string * value)) (e : exn) :
  is_string (field "jsonrpc" req_body) "2.0" = true ->
  truthy (field "method" req_body) = true ->
  toString w (field "method" req_body) = inl e ->
  Part000.api_mcp w true req_body
  = ([], internal_error (field "id" req_body) "Cannot convert object to primitive value").
Proof.
  intros Hv Hm Ht. unfold Part000.api_mcp. simpl. rewrite Hv, Hm. simpl.
  rewrite Ht. apply toString_error in Ht. subst e. reflexivity.
Qed.
End Part000Facts.

(** X19. The second variant turns no backend failure into an error
    reply. A version-valid envelope with a method gets the 500 "Internal
    error" reply in two cases only, each with the complaint as [data]: the
    method cannot be converted to a string for the log line, and then no
    backend operation is reached; or the result or the [id] holds a BigInt,
    which the logging [JSON.stringify] cannot serialize. In every other case
    the reply is a result under status 200. *)
Theorem part000_internal_errors (w : Api.world)
    (req_body : list (string * Json.value)) :
  Api.is_string (Json.field "jsonrpc" req_body) "2.0" = true ->
  Json.truthy (Json.field "method" req_body) = true ->
  match Api.toString w (Json.field "method" req_body) with
  | inl _ =>
      Api.Part000.api_mcp w true req_body
      = ([], internal_error (Json.field "id" req_body)
               "Cannot convert object to primitive value")
  | inr _ =>
      exists calls result,
        Api.Part000.dispatch w (Json.field "method" req_body)
          (Json.field "params" req_body)
        = (calls, inr result) /\
        Api.Part000.api_mcp w true req_body
        = (calls,
           if Json.has_bigint (Json.field "id" req_body) || Json.has_bigint result then
             internal_error (Json.field "id" req_body)
               "Do not know how to serialize a BigInt"
           else
             {| Api.status := 200;
                Api.body :=
                  Json.Obj [("jsonrpc", Json.Str "2.0");
                            ("id", Json.field "id" req_body);
                            ("result", result)] |})
  end.
Proof.
  intros Hv Hm.
  destruct (Api.toString w (Json.field "method" req_body)) as [e | text] eqn:Ht.
  - exact (Part000_unprintable w req_body e Hv Hm Ht).
  - destruct (Part000_dispatch_returns w (Json.field "method" req_body)
                (Json.field "params" req_body) text Ht) as (calls & result & Hd).
    exists calls, result. split; [exact Hd |].
    exact (Part000_reply w req_body text calls result Hv Hm Ht Hd).
Qed.

Lemma part000_internal_errors_witness :
  Api.Part000.api_mcp sample_world true unprintable_method
  = ([], internal_error (Json.num_of_Z 1) "Cannot convert object to primitive value") /\
  exists calls result,
    Api.Part000.dispatch bigint_hash_world (Json.Str "get_latest_block") (Json.Obj [])
    = (calls, inr result) /\
    Api.Part000.api_mcp bigint_hash_world true
      (envelope "2.0" "get_latest_block" (Json.Obj []))
    = (calls,
       if Json.has_bigint (Json.num_of_Z 1) || Json.has_bigint result then
         internal_error (Json.num_of_Z 1) "Do not know how to serialize a BigInt"
       else
         {| Api.status := 200;
            Api.body :=
              Json.Obj [("jsonrpc", Json.Str "2.0"); ("id", Json.num_of_Z 1);
                        ("result", result)] |}).
Proof.
  split.
  - apply (part000_internal_errors sample_world unprintable_method eq_refl eq_refl).
  - apply (part000_internal_errors bigint_hash_world
             (envelope "2.0" "get_latest_block" (Json.Obj [])) eq_refl eq_refl).
Defined.

(** X20. In the second variant a failing [getLatestBlock] is reported as
    a result, not as an error: for a [params] object and an [id] without
    BigInt, when the backend call throws, the reply has status 200 and the
    result [{error: "Failed to fetch latest block", message}] with the
    thrown error's message ("Unknown error" for a thrown non-error). *)
Theorem latest_block_failure_is_a_result (w : Api.world)
    (req_body fields : list (string * Json.value)) (e : Json.exn) :
  Json.field "jsonrpc" req_body = Json.Str "2.0" ->
  Json.field "method" req_body = Json.Str "get_latest_block" ->
  Json.field "params" req_body = Json.Obj fields ->
  Json.has_bigint (Json.field "id" req_body) = false ->
  let net := Json.or_else (Json.field "network" fields) (Json.Str "sei") in
  Api.backend w Api.getLatestBlock [net] = inl e ->
  Api.Part000.api_mcp w true req_body
  = ([Api.Backend Api.getLatestBlock [net]],
     {| Api.status := 200;
        Api.body :=
          Json.Obj [("jsonrpc", Json.Str "2.0"); ("id", Json.field "id" req_body);
                    ("result",
                       Json.Obj [("error", Json.Str "Failed to fetch latest block");
                                 ("message",
                                    Json.Str (Json.message_or "Unknown error" e))])] |}).
Proof.
  intros Hv Hm Hp Hid net Hback.
  rewrite (Part000_reply w req_body "get_latest_block"
             [Api.Backend Api.getLatestBlock [net]]
             (Json.Obj [("error", Json.Str "Failed to fetch latest block");
                        ("message", Json.Str (Json.message_or "Unknown error" e))])).
  - rewrite Hid. reflexivity.
  - rewrite Hv. reflexivity.
  - rewrite Hm. reflexivity.
  - rewrite Hm. reflexivity.
  - rewrite Hm, Hp.
    change (Api.Part000.get_latest_block w (Json.Obj fields)
            = ([Api.Backend Api.getLatestBlock [net]],
               inr (Json.Obj [("error", Json.Str "Failed to fetch latest block");
                              ("message",
                                 Json.Str (Json.message_or "Unknown error" e))]))).
    unfold Api.Part000.get_latest_block. simpl. fold net. rewrite Hback. reflexivity.
Qed.

Lemma latest_block_failure_is_a_result_witness :
  Api.Part000.api_mcp failing_world true (envelope "2.0" "get_latest_block" (Json.Obj []))
  = ([Api.Backend Api.getLatestBlock [Json.Str "sei"]],
     {| Api.status := 200;
        Api.body :=
          Json.Obj [("jsonrpc", Json.Str "2.0"); ("id", Json.num_of_Z 1);
                    ("result",
                       Json.Obj [("error", Json.Str "Failed to fetch latest block");
                                 ("message", Json.Str "node unreachable")])] |}).
Proof.
  apply (latest_block_failure_is_a_result failing_world
           (envelope "2.0" "get_latest_block" (Json.Obj [])) []
           (Json.JsError "node unreachable") eq_refl eq_refl eq_refl eq_refl eq_refl).
Defined.

(** X21. In the second variant [get_transaction] asks for a hash before
    anything else: for a [params] object whose [hash] is missing or falsy
    no backend call is made and the result is
    [{error: "Transaction hash is required"}], under status 200. *)
Theorem transaction_hash_is_required (w : Api.world)
    (req_body fields : list (string * Json.value)) :
  Json.field "jsonrpc" req_body = Json.Str "2.0" ->
  Json.field "method" req_body = Json.Str "get_transaction" ->
  Json.field "params" req_body = Json.Obj fields ->
  Json.has_bigint (Json.field "id" req_body) = false ->
  Json.truthy (Json.field "hash" fields) = false ->
  Api.Part000.api_mcp w true req_body
  = ([], {| Api.status := 200;
            Api.body :=
              Json.Obj [("jsonrpc", Json.Str "2.0"); ("id", Json.field "id" req_body);
                        ("result",
                           Json.Obj [("error", Json.Str "Transaction hash is required")])] |}).
Proof.
  intros Hv Hm Hp Hid Hhash.
  rewrite (Part000_reply w req_body "get_transaction" []
             (Json.Obj [("error", Json.Str "Transaction hash is required")])).
  - rewrite Hid. reflexivity.
  - rewrite Hv. reflexivity.
  - rewrite Hm. reflexivity.
  - rewrite Hm. reflexivity.
  - rewrite Hm, Hp.
    change (Api.Part000.get_transaction w (Json.Obj fields)
            = ([], inr (Json.Obj [("error", Json.Str "Transaction hash is required")]))).
    unfold Api.Part000.get_transaction. simpl. rewrite Hhash. reflexivity.
Qed.

Lemma transaction_hash_is_required_witness :
  Api.Part000.api_mcp sample_world true (envelope "2.0" "get_transaction" (Json.Obj []))
  = ([], {| Api.status := 200;
            Api.body :=
              Json.Obj [("jsonrpc", Json.Str "2.0"); ("id", Json.num_of_Z 1);
                        ("result",
                           Json.Obj [("error", Json.Str "Transaction hash is required")])] |}).
Proof.
  apply (transaction_hash_is_required sample_world
           (envelope "2.0" "get_transaction" (Json.Obj [])) []
           eq_refl eq_refl eq_refl eq_refl eq_refl).
Defined.

(** Converting a primitive value never throws. *)
Lemma toString_opt_primitive (w : Api.world) (callee : string) (v : Json.value) :
  Json.primitive v = true -> exists r, Api.toString_opt w callee v = inr r.
Proof.
  destruct v as [| | [] | n | z | s | items | fields]; simpl; try discriminate; eauto.
Qed.

Lemma Number_primitive (w : Api.world) (v : Json.value) :
  Json.primitive v = true -> exists n, Api.Number w v = inr n.
Proof.
  destruct v as [| | [] | n | z | s | items | fields]; simpl; try discriminate; eauto.
Qed.

(** X22. In the second variant a missing receipt does not fail
    [get_transaction]. When [getTransaction] returns a transaction whose
    [value], [gas], [gasPrice] and [blockNumber] are primitive values (as
    is the [gasUsed] of the receipt, if any), both backend calls are made, in that order, whatever
    [getTransactionReceipt] does; the status is "success" exactly when a
    receipt came back whose [status] is the string "success", hence
    "failed" when the receipt call throws; and without a [gasUsed] from a
    receipt, [gasUsed] is taken from the transaction's [gas] ("0" when it
    has none). *)
Theorem receipt_failure_is_tolerated (w : Api.world) (fields : list (string * Json.value))
    (tx : Json.value) :
  Json.truthy (Json.field "hash" fields) = true ->
  let hash := Json.field "hash" fields in
  let net := Json.or_else (Json.field "network" fields) (Json.Str "sei") in
  Api.backend w Api.getTransaction [hash; net] = inr tx ->
  Json.nullish tx = false ->
  (forall k, In k ["value"; "gas"; "gasPrice"; "blockNumber"]%string ->
             Json.primitive (Json.get_opt tx k) = true) ->
  let receipt :=
    match Api.backend w Api.getTransactionReceipt [hash; net] with
    | inr r => r
    | inl _ => Json.Undefined
    end in
  Json.primitive (Json.get_opt receipt "gasUsed") = true ->
  exists result,
    Api.Part000.get_transaction w (Json.Obj fields)
    = ([Api.Backend Api.getTransaction [hash; net];
        Api.Backend Api.getTransactionReceipt [hash; net]],
       inr (Json.Obj result)) /\
    Json.field "status" result
    = Json.Str (if Api.is_string (Json.get_opt receipt "status") "success"
                then "success" else "failed") /\
    (Json.nullish (Json.get_opt receipt "gasUsed") = true ->
     exists gas,
       Api.toString_opt w "tx.gas?.toString" (Json.get_opt tx "gas") = inr gas /\
       Json.field "gasUsed" result = Json.or_else gas (Json.Str "0")).
Proof.
  intros Hhash hash net Htx Hnn Hprim receipt Hrec. subst hash net receipt.
  unfold Api.Part000.get_transaction. simpl. rewrite Hhash. simpl. rewrite Htx. simpl.
  set (outcome := Api.backend w Api.getTransactionReceipt _) in *. clearbody outcome.
  assert (Hget : forall k, Json.get tx k = inr (Json.get_opt tx k)).
  { intros k. destruct tx; try discriminate; reflexivity. }
  assert (Hfield : forall k,
             existsb (String.eqb k) ["value"; "gas"; "gasPrice"; "blockNumber"]%string = true ->
             Json.primitive (Json.get_opt tx k) = true).
  { intros k Hk. apply Hprim. apply existsb_exists in Hk as (x & Hin & Heq).
    apply String.eqb_eq in Heq. subst x. exact Hin. }
  clear Hprim.
  destruct (toString_opt_primitive w "tx.value?.toString" _ (Hfield "value"%string eq_refl))
    as (value & Hvalue).
  destruct (toString_opt_primitive w "receipt?.gasUsed?.toString" _ Hrec)
    as (receiptGas & HreceiptGas).
  destruct (toString_opt_primitive w "tx.gas?.toString" _ (Hfield "gas"%string eq_refl))
    as (gas & Hgas).
  destruct (toString_opt_primitive w "tx.gasPrice?.toString" _
              (Hfield "gasPrice"%string eq_refl))
    as (gasPrice & HgasPrice).
  destruct (Number_primitive w
              (Json.or_else (Json.get_opt tx "blockNumber") (Json.num_of_Z 0)))
    as (blockNumber & HblockNumber).
  { unfold Json.or_else.
    destruct (Json.truthy (Json.get_opt tx "blockNumber"));
      [apply Hfield |]; reflexivity. }
  assert (Hnull : Json.nullish
                    (Json.get_opt match outcome with inl _ => Json.Undefined | inr r => r end
                       "gasUsed") = true ->
                  Json.truthy receiptGas = false).
  { intros Hnull. revert HreceiptGas.
    destruct (Json.get_opt _ "gasUsed"); try discriminate; intros [= <-]; reflexivity. }
  destruct outcome as [e | r]; simpl in HreceiptGas, Hnull |- *.
  - injection HreceiptGas as <-.
    rewrite !Hget. simpl. rewrite Hvalue. simpl. rewrite Hgas. simpl.
    rewrite HgasPrice. simpl. rewrite HblockNumber. simpl.
    eexists. split; [reflexivity | split; [reflexivity |]].
    simpl. eauto.
  - rewrite !Hget. simpl. rewrite Hvalue. simpl. rewrite HreceiptGas. simpl.
    destruct (Json.truthy receiptGas) eqn:Htruthy; simpl;
      rewrite ?Hgas; simpl; rewrite HgasPrice; simpl; rewrite HblockNumber; simpl;
      (eexists; split; [reflexivity | split; [reflexivity |]]);
      simpl; intros Hn; [specialize (Hnull Hn); discriminate | eauto].
Qed.

Lemma receipt_failure_is_tolerated_witness :
  exists result,
    Api.Part000.get_transaction receiptless_world
      (Json.Obj [("hash", Json.Str "0x01")])
    = ([Api.Backend Api.getTransaction [Json.Str "0x01"; Json.Str "sei"];
        Api.Backend Api.getTransactionReceipt [Json.Str "0x01"; Json.Str "sei"]],
       inr (Json.Obj result)) /\
    Json.field "status" result = Json.Str "failed" /\
    (Json.nullish (Json.get_opt Json.Undefined "gasUsed") = true ->
     exists gas,
       Api.toString_opt receiptless_world "tx.gas?.toString"
         (Json.get_opt (Json.Obj [("hash", Json.Str "0x01"); ("gas", Json.BigInt 21000)])
            "gas")
       = inr gas /\
       Json.field "gasUsed" result = Json.or_else gas (Json.Str "0")).
Proof.
  apply (receipt_failure_is_tolerated receiptless_world [("hash", Json.Str "0x01")]
           (Json.Obj [("hash", Json.Str "0x01"); ("gas", Json.BigInt 21000)])
           eq_refl eq_refl eq_refl).
  - intros k Hk. simpl. repeat destruct (String.eqb _ _); reflexivity.
  - reflexivity.
Defined.

(** X23. The second variant echoes the request [id] as it came in a
    success reply, but in every error reply (503, 400, 500) a falsy [id]
    (missing, [0], the empty string, [false]) comes back as [null]. *)
Theorem part000_error_replies_null_falsy_id (w : Api.world) (server : bool)
    (req_body : list (string * Json.value)) :
  let reply := snd (Api.Part000.api_mcp w server req_body) in
  (Api.status reply = 200 ->
   Json.get_opt (Api.body reply) "id" = Json.field "id" req_body) /\
  (Api.status reply <> 200 ->
   Json.get_opt (Api.body reply) "id"
   = Json.or_else (Json.field "id" req_body) Json.Null).
Proof.
  intros reply. unfold reply. clear reply.
  destruct server; [| simpl; split; [discriminate | reflexivity]].
  destruct (Api.is_string (Json.field "jsonrpc" req_body) "2.0") eqn:Hv.
  - destruct (Json.truthy (Json.field "method" req_body)) eqn:Hm.
    + destruct (Api.toString w (Json.field "method" req_body)) as [e | text] eqn:Ht.
      * rewrite (Part000_unprintable w req_body e Hv Hm Ht). simpl.
        split; [discriminate | reflexivity].
      * destruct (Part000_dispatch_returns w (Json.field "method" req_body)
                    (Json.field "params" req_body) text Ht) as (calls & result & Hd).
        rewrite (Part000_reply w req_body text calls result Hv Hm Ht Hd). simpl.
        destruct (Json.has_bigint (Json.field "id" req_body) || Json.has_bigint result);
          simpl; split; intros H; try reflexivity; try discriminate; congruence.
    + unfold Api.Part000.api_mcp. simpl. rewrite Hv, Hm. simpl.
      split; [discriminate | reflexivity].
  - unfold Api.Part000.api_mcp. simpl. rewrite Hv. simpl.
    split; [discriminate | reflexivity].
Qed.

Lemma part000_error_replies_null_falsy_id_witness :
  Json.get_opt
    (Api.body
       (snd (Api.Part000.api_mcp sample_world true
               [("jsonrpc", Json.Str "1.0"); ("id", Json.num_of_Z 0);
                ("method", Json.Str "get_balance")])))
    "id"
  = Json.or_else (Json.num_of_Z 0) Json.Null.
Proof.
  apply (proj2 (part000_error_replies_null_falsy_id sample_world true
                  [("jsonrpc", Json.Str "1.0"); ("id", Json.num_of_Z 0);
                   ("method", Json.Str "get_balance")])).
  discriminate.
Defined.

(** ** More on the serialization of results *)

Section MoreSerializationFacts.
Import Json Api.

Lemma SerializeJSONArray_mono (f g : string -> value -> option (exn + option value))
    (items : list value) :
  (forall k x r, f k x = Some r -> g k x = Some r) ->
  forall i r, SerializeJSONArray f i items = Some r ->
              SerializeJSONArray g i items = Some r.
Proof.
  intros Hfg. induction items as [| x items IH]; intros i r; simpl; [auto |].
  destruct (f (index_key i) x) as [[e | o] |] eqn:E; try discriminate.
  - rewrite (Hfg _ _ _ E). auto.
  - rewrite (Hfg _ _ _ E).
    destruct (SerializeJSONArray f (S i) items) as [r' |] eqn:E'; [| discriminate].
    rewrite (IH _ _ E'). auto.
Qed.

Lemma SerializeJSONObject_mono (f g : string -> value -> option (exn + option value))
    (fields : list (string * value)) :
  (forall k x r, f k x = Some r -> g k x = Some r) ->
  forall r, SerializeJSONObject f fields = Some r ->
            SerializeJSONObject g fields = Some r.
Proof.
  intros Hfg. induction fields as [| [k x] fields IH]; intros r; simpl; [auto |].
  destruct (f k x) as [[e | o] |] eqn:E; try discriminate.
  - rewrite (Hfg _ _ _ E). auto.
  - rewrite (Hfg _ _ _ E).
    destruct (SerializeJSONObject f fields) as [r' |] eqn:E'; [| discriminate].
    rewrite (IH _ eq_refl). auto.
Qed.

(** More fuel does not change an outcome. *)
Lemma serialize_fuel_mono (replacer : string -> value -> value) (fuel : nat) :
  forall key v r,
    SerializeJSONProperty fuel replacer key v = Some r ->
    SerializeJSONProperty (S fuel) replacer key v = Some r.
Proof.
  induction fuel as [| fuel IH]; intros key v r; [discriminate |].
  intros H. simpl in H. change (SerializeJSONProperty (S (S fuel)) replacer key v)
    with (match replacer key v with
          | Undefined => Some (inr None)
          | Null => Some (inr (Some Null))
          | Bool b => Some (inr (Some (Bool b)))
          | Str s => Some (inr (Some (Str s)))
          | Num (Finite q) => Some (inr (Some (Num (Finite q))))
          | Num _ => Some (inr (Some Null))
          | BigInt _ => Some (inl (JsError "Do not know how to serialize a BigInt"))
          | Arr items =>
              match SerializeJSONArray (SerializeJSONProperty (S fuel) replacer) 0 items with
              | None => None
              | Some (inl e) => Some (inl e)
              | Some (inr l) => Some (inr (Some (Arr l)))
              end
          | Obj fields =>
              match SerializeJSONObject (SerializeJSONProperty (S fuel) replacer) fields with
              | None => None
              | Some (inl e) => Some (inl e)
              | Some (inr l) => Some (inr (Some (Obj l)))
              end
          end).
  destruct (replacer key v) as [| | b | [q | |] | z | s | items | fields]; try exact H.
  - destruct (SerializeJSONArray (SerializeJSONProperty fuel replacer) 0 items)
      as [r' |] eqn:E; [| discriminate].
    rewrite (SerializeJSONArray_mono _ _ items IH _ _ E). exact H.
  - destruct (SerializeJSONObject (SerializeJSONProperty fuel replacer) fields)
      as [r' |] eqn:E; [| discriminate].
    rewrite (SerializeJSONObject_mono _ _ fields IH _ E). exact H.
Qed.

Lemma serialize_fuel_le (replacer : string -> value -> value) (f1 f2 : nat) :
  (f1 <= f2)%nat ->
  forall key v r,
    SerializeJSONProperty f1 replacer key v = Some r ->
    SerializeJSONProperty f2 replacer key v = Some r.
Proof.
  induction 1 as [| f2 _ IH]; intros key v r H; [exact H |].
  apply serialize_fuel_mono, IH, H.
Qed.

(** What came out of a serialization serializes to itself. *)
Lemma reserialize (fuel : nat) :
  forall key v r,
    SerializeJSONProperty fuel HttpServer.replacer key v = Some (inr (Some r)) ->
    forall key', SerializeJSONProperty fuel HttpServer.replacer key' r = Some (inr (Some r)).
Proof.
  induction fuel as [| fuel IH]; intros key v r; [discriminate |].
  assert (Hnull : forall k, (exists k0 x o, SerializeJSONProperty fuel HttpServer.replacer k0 x
                                           = Some o) ->
                            SerializeJSONProperty fuel HttpServer.replacer k Null
                            = Some (inr (Some Null))).
  { intros k (k0 & x & o & Ho). destruct fuel; [discriminate | reflexivity]. }
  simpl.
  destruct v as [| | b | [q | |] | z | s | items | fields]; simpl;
    try discriminate; try (intros [= <-]; reflexivity).
  - destruct (SerializeJSONArray _ 0 items) as [[e | l] |] eqn:E; try discriminate.
    intros [= <-] key'. simpl.
    assert (Hl : forall i j l0,
               SerializeJSONArray (SerializeJSONProperty fuel HttpServer.replacer) i items
               = Some (inr l0) ->
               SerializeJSONArray (SerializeJSONProperty fuel HttpServer.replacer) j l0
               = Some (inr l0)).
    { clear E l. induction items as [| x items IHi]; intros i j l0; simpl.
      - intros [= <-]. reflexivity.
      - destruct (SerializeJSONProperty fuel HttpServer.replacer (index_key i) x)
          as [[e | o] |] eqn:Ex; try discriminate.
        destruct (SerializeJSONArray _ (S i) items) as [[e | l1] |] eqn:El;
          try discriminate.
        intros [= <-]. simpl.
        assert (Hhead : SerializeJSONProperty fuel HttpServer.replacer (index_key j)
                          (default Null o)
                        = Some (inr (Some (default Null o)))).
        { destruct o as [y |]; simpl; [exact (IH _ _ _ Ex _) |]. apply Hnull. eauto. }
        rewrite Hhead, (IHi _ (S j) _ El). reflexivity. }
    rewrite (Hl _ 0%nat _ E). reflexivity.
  - destruct (SerializeJSONObject _ fields) as [[e | l] |] eqn:E; try discriminate.
    intros [= <-] key'. simpl.
    assert (Hl : forall l0,
               SerializeJSONObject (SerializeJSONProperty fuel HttpServer.replacer) fields
               = Some (inr l0) ->
               SerializeJSONObject (SerializeJSONProperty fuel HttpServer.replacer) l0
               = Some (inr l0)).
    { clear E l. induction fields as [| [k x] fields IHf]; intros l0; simpl.
      - intros [= <-]. reflexivity.
      - destruct (SerializeJSONProperty fuel HttpServer.replacer k x)
          as [[e | o] |] eqn:Ex; try discriminate.
        destruct (SerializeJSONObject _ fields) as [[e | l1] |] eqn:El;
          try discriminate.
        intros [= <-]. destruct o as [y |]; [| exact (IHf _ eq_refl)].
        simpl. rewrite (IH _ _ _ Ex k), (IHf _ eq_refl). reflexivity. }
    rewrite (Hl _ E). reflexivity.
Qed.
End MoreSerializationFacts.

(** X24. The serialization of a result is idempotent: what
    [JSON.parse(JSON.stringify(result, replacer))] returned is left as it
    is by a second pass, so a client may send a result back through the
    endpoint's encoding without changing it. *)
Theorem serializedResult_idempotent (w : Api.world) (result r : Json.value) :
  Api.HttpServer.serializedResult w result = inr r ->
  Api.HttpServer.serializedResult w r = inr r.
Proof.
  intros H. unfold Api.HttpServer.serializedResult, Json.parse_stringify in H.
  destruct (Json.SerializeJSONProperty (S (Json.depth result)) _ _ result)
    as [[e | [r' |]] |] eqn:E; try discriminate.
  injection H as ->.
  pose proof (reserialize _ _ _ _ E ""%string) as Hre.
  pose proof (serialize_fuel Api.HttpServer.replacer big_replacer_depth
                (S (Json.depth r)) ""%string r ltac:(lia)) as Hsome.
  unfold Api.HttpServer.serializedResult, Json.parse_stringify.
  destruct (Json.SerializeJSONProperty (S (Json.depth r)) _ _ r) as [o |] eqn:E2;
    [| congruence].
  assert (Ho : o = inr (Some r)).
  { pose proof (serialize_fuel_le Api.HttpServer.replacer _ _
                  (Nat.le_max_l (S (Json.depth result)) (S (Json.depth r))) _ _ _ Hre) as H1.
    pose proof (serialize_fuel_le Api.HttpServer.replacer _ _
                  (Nat.le_max_r (S (Json.depth result)) (S (Json.depth r))) _ _ _ E2) as H2.
    congruence. }
  rewrite Ho. reflexivity.
Qed.

Lemma serializedResult_idempotent_witness :
  Api.HttpServer.serializedResult sample_world
    (Json.Obj [("wei", Json.Str "1180591620717411303424");
               ("ether", Json.Str "1180.591620717411303424")])
  = inr (Json.Obj [("wei", Json.Str "1180591620717411303424");
                   ("ether", Json.Str "1180.591620717411303424")]).
Proof.
  apply (serializedResult_idempotent sample_world sample_balance).
  vm_compute. reflexivity.
Defined.

(** X25. Only [undefined] cannot be returned: every backend result other
    than [undefined] is serialized and answered as a result, while a backend
    operation that resolves to [undefined] is answered with the error -32603
    whose message is the complaint of [JSON.parse] about [undefined],
    although nothing failed. *)
Theorem only_undefined_result_fails (w : Api.world) (v : Json.value) :
  (v <> Json.Undefined -> exists r, Api.HttpServer.serializedResult w v = inr r) /\
  forall req_body calls,
    Api.HttpServer.dispatch w (Json.field "method" req_body) (Json.field "params" req_body)
    = (calls, inr Json.Undefined) ->
    Api.HttpServer.api_mcp w true req_body
    = (calls,
       inr {| Api.status := 200;
              Api.body := Api.HttpServer.rpc_error (Json.field "id" req_body) (-32603)
                            (Api.undefined_not_json w) |}).
Proof.
  split.
  - intros Hv. unfold Api.HttpServer.serializedResult, Json.parse_stringify.
    pose proof (serialize_fuel Api.HttpServer.replacer big_replacer_depth
                  (S (Json.depth v)) ""%string v ltac:(lia)) as Hsome.
    pose proof (replacer_never_throws (S (Json.depth v)) ""%string v) as Hno.
    destruct (Json.SerializeJSONProperty (S (Json.depth v)) _ _ v)
      as [[e | [r |]] |] eqn:E.
    + exfalso. exact (Hno e eq_refl).
    + eauto.
    + exfalso. simpl in E.
      destruct v as [| | b | [q | |] | z | s | items | fields]; simpl in E;
        try discriminate; try congruence.
      * destruct (Json.SerializeJSONArray _ 0 items) as [[e | l] |]; discriminate.
      * destruct (Json.SerializeJSONObject _ fields) as [[e | l] |]; discriminate.
    + congruence.
  - intros req_body calls Hd.
    destruct (HttpServer_dispatch_string _ _ _ _ _ Hd) as (m & Hm).
    rewrite (HttpServer_reply w req_body m calls (inr Json.Undefined));
      [| rewrite Hm; reflexivity | exact Hd].
    reflexivity.
Qed.

Lemma only_undefined_result_fails_witness :
  (exists r, Api.HttpServer.serializedResult silent_world sample_block = inr r) /\
  Api.HttpServer.api_mcp silent_world true (envelope "2.0" "get_chain_info" (Json.Obj []))
  = ([Api.Backend Api.getChainInfo [Json.Str "sei"]],
     inr {| Api.status := 200;
            Api.body := Api.HttpServer.rpc_error (Json.num_of_Z 1) (-32603)
                          (quoted "undefined" +:+ " is not valid JSON") |}).
Proof.
  split.
  - apply (proj1 (only_undefined_result_fails silent_world sample_block)).
    discriminate.
  - apply (proj2 (only_undefined_result_fails silent_world Json.Undefined)
             (envelope "2.0" "get_chain_info" (Json.Obj []))
             [Api.Backend Api.getChainInfo [Json.Str "sei"]]).
    reflexivity.
Defined.

Section ShapeFacts.
Import Json Api.

Lemma SerializeJSONArray_length (f : string -> value -> option (exn + option value))
    (items : list value) :
  forall i l, SerializeJSONArray f i items = Some (inr l) -> length l = length items.
Proof.
  induction items as [| x items IH]; intros i l; simpl.
  - intros [= <-]. reflexivity.
  - destruct (f (index_key i) x) as [[e | o] |]; try discriminate.
    destruct (SerializeJSONArray f (S i) items) as [[e | l'] |] eqn:E; try discriminate.
    intros [= <-]. simpl. f_equal. exact (IH _ _ E).
Qed.

Lemma SerializeJSONObject_keys (f : string -> value -> option (exn + option value))
    (fields : list (string * value)) :
  forall l, SerializeJSONObject f fields = Some (inr l) ->
            sublist (List.map fst l) (List.map fst fields).
Proof.
  induction fields as [| [k x] fields IH]; intros l; simpl.
  - intros [= <-]. constructor.
  - destruct (f k x) as [[e | o] |]; try discriminate.
    destruct (SerializeJSONObject f fields) as [[e | l'] |] eqn:E; try discriminate.
    intros [= <-]. destruct o as [y |]; simpl.
    + apply sublist_skip, IH. reflexivity.
    + apply sublist_cons, IH. reflexivity.
Qed.
End ShapeFacts.

(** X26. Serialization keeps the shape of a result: an array result comes
    back as an array of the same length (an [undefined] element becomes
    [null], nothing is dropped), and an object result comes back as an
    object whose keys are keys of the result in their original order
    (properties may be dropped, none is added or reordered). *)
Theorem serializedResult_keeps_shape (w : Api.world) (v r : Json.value) :
  Api.HttpServer.serializedResult w v = inr r ->
  (forall items, v = Json.Arr items ->
     exists l, r = Json.Arr l /\ length l = length items) /\
  (forall fields, v = Json.Obj fields ->
     exists l, r = Json.Obj l /\
               sublist (List.map fst l) (List.map fst fields)).
Proof.
  intros H. unfold Api.HttpServer.serializedResult, Json.parse_stringify in H.
  destruct (Json.SerializeJSONProperty (S (Json.depth v)) _ _ v)
    as [[e | [r' |]] |] eqn:E; try discriminate.
  injection H as ->. split.
  - intros items ->. simpl in E.
    destruct (Json.SerializeJSONArray _ 0 items) as [[e | l] |] eqn:El; try discriminate.
    injection E as <-. exists l. split; [reflexivity |].
    eapply SerializeJSONArray_length, El.
  - intros fields ->. simpl in E.
    destruct (Json.SerializeJSONObject _ fields) as [[e | l] |] eqn:El; try discriminate.
    injection E as <-. exists l. split; [reflexivity |].
    eapply SerializeJSONObject_keys, El.
Qed.

Lemma serializedResult_keeps_shape_witness :
  exists l,
    Json.Obj [("wei", Json.Str "1180591620717411303424");
              ("ether", Json.Str "1180.591620717411303424")] = Json.Obj l /\
    sublist (List.map fst l) ["wei"; "ether"]%string.
Proof.
  apply (proj2 (serializedResult_keeps_shape sample_world sample_balance _
                  ltac:(vm_compute; reflexivity))
           [("wei", Json.BigInt (2 ^ 70));
            ("ether", Json.Str "1180.591620717411303424")] eq_refl).
Defined.

(** ** When two generated identifiers are equal *)

Section IdGenFacts.

Lemma replace_xy_calls_inj (f g : ascii -> nat -> string) (s : string) :
  (forall c j, exists d, f c j = String d "") ->
  (forall c j, exists d, g c j = String d "") ->
  forall k,
    IdGen.replace_xy f s k = IdGen.replace_xy g s k ->
    Forall (fun cj => f (fst cj) (snd cj) = g (fst cj) (snd cj)) (callback_calls s k).
Proof.
  intros Hf Hg. induction s as [| c s IH]; intros k Heq; simpl in *.
  - constructor.
  - destruct (IdGen.is_xy c).
    + destruct (Hf c k) as (d & Hd). destruct (Hg c k) as (d' & Hd').
      rewrite Hd, Hd' in Heq. simpl in Heq. injection Heq as -> Heq.
      constructor; [simpl; congruence | apply IH, Heq].
    + injection Heq as Heq. apply IH, Heq.
Qed.

Lemma replace_xy_calls_ext (f g : ascii -> nat -> string) (s : string) :
  forall k,
    Forall (fun cj => f (fst cj) (snd cj) = g (fst cj) (snd cj)) (callback_calls s k) ->
    IdGen.replace_xy f s k = IdGen.replace_xy g s k.
Proof.
  induction s as [| c s IH]; intros k Hall; simpl in *; [reflexivity |].
  destruct (IdGen.is_xy c).
  - inversion Hall as [| ? ? Hhead Htail]; subst. simpl in Hhead.
    rewrite Hhead, (IH _ Htail). reflexivity.
  - rewrite (IH _ Hall). reflexivity.
Qed.

Lemma hex_digit_inj (a b : Z) :
  0 <= a < 16 -> 0 <= b < 16 -> Js.toString16 a = Js.toString16 b -> a = b.
Proof.
  intros Ha Hb H. apply below_16_cases in Ha, Hb. simpl in Ha, Hb.
  repeat (destruct Ha as [Ha | Ha]; [subst a |]); try contradiction;
    repeat (destruct Hb as [Hb | Hb]; [subst b |]); try contradiction;
    first [reflexivity | vm_compute in H; discriminate].
Qed.

Lemma variant_digit_inj (a b : Z) :
  0 <= a < 16 -> 0 <= b < 16 ->
  Js.toString16 (Z.lor (Z.land a 3) 8) = Js.toString16 (Z.lor (Z.land b 3) 8) ->
  Z.land a 3 = Z.land b 3.
Proof.
  intros Ha Hb H. apply below_16_cases in Ha, Hb. simpl in Ha, Hb.
  repeat (destruct Ha as [Ha | Ha]; [subst a |]); try contradiction;
    repeat (destruct Hb as [Hb | Hb]; [subst b |]); try contradiction;
    first [reflexivity | vm_compute in H; discriminate].
Qed.
(** The template makes 31 calls, the sixteenth for the variant nibble. *)
Lemma template_calls :
  callback_calls IdGen.template 0
  = List.map (fun k => (if Nat.eqb k 15 then "y"%char else "x"%char, k)) (seq 0 31).
Proof. vm_compute. reflexivity. Qed.
End IdGenFacts.

(** X27. Two generated identifiers are equal exactly when the random
    source gave the same 31 nibbles: for draws in [0,1), the identifiers of
    two random sources coincide if and only if [Math.random() * 16 | 0]
    agrees on the calls 0 to 30 other than call 15 (the variant position),
    and agrees in its two low bits on call 15. *)
Theorem generateSessionId_collides_iff (random random' : nat -> Q) :
  (forall k, (0 <= random k)%Q /\ (random k < 1)%Q) ->
  (forall k, (0 <= random' k)%Q /\ (random' k < 1)%Q) ->
  IdGen.generateSessionId random = IdGen.generateSessionId random' <->
  (forall k, (k < 31)%nat -> k <> 15%nat -> IdGen.draw random k = IdGen.draw random' k) /\
  Z.land (IdGen.draw random 15) 3 = Z.land (IdGen.draw random' 15) 3.
Proof.
  intros Hr Hr'.
  assert (Hrange : forall k, 0 <= IdGen.draw random k < 16)
    by (intros k; apply draw_range; apply Hr).
  assert (Hrange' : forall k, 0 <= IdGen.draw random' k < 16)
    by (intros k; apply draw_range; apply Hr').
  assert (Hone : forall c j, exists d, IdGen.callback random c j = String d "").
  { intros c j.
    destruct (callback_nibble random c j (proj1 (Hr j)) (proj2 (Hr j))) as (d & Hd & _).
    eauto. }
  assert (Hone' : forall c j, exists d, IdGen.callback random' c j = String d "").
  { intros c j.
    destruct (callback_nibble random' c j (proj1 (Hr' j)) (proj2 (Hr' j))) as (d & Hd & _).
    eauto. }
  unfold IdGen.generateSessionId. split.
  - intros Heq.
    pose proof (replace_xy_calls_inj (IdGen.callback random) (IdGen.callback random')
                  IdGen.template Hone Hone' 0%nat Heq) as Hall.
    rewrite template_calls, List.Forall_forall in Hall. split.
    + intros k Hlt Hne. apply hex_digit_inj; [apply Hrange | apply Hrange' |].
      apply (Hall ("x"%char, k)). apply in_map_iff. exists k. split.
      * destruct (Nat.eqb_spec k 15); [contradiction | reflexivity].
      * apply in_seq. lia.
    + apply variant_digit_inj; [apply Hrange | apply Hrange' |].
      apply (Hall ("y"%char, 15%nat)). apply in_map_iff. exists 15%nat. split.
      * reflexivity.
      * apply in_seq. lia.
  - intros [Hx Hy].
    apply (replace_xy_calls_ext (IdGen.callback random) (IdGen.callback random')
             IdGen.template).
    rewrite template_calls. apply List.Forall_forall.
    intros [c k] Hin. apply in_map_iff in Hin as (k' & Hk & Hin).
    apply in_seq in Hin. injection Hk as <- <-. simpl.
    unfold IdGen.callback.
    destruct (Nat.eqb_spec k' 15) as [-> | Hne].
    + change (Ascii.eqb "y" "x") with false. cbv iota. rewrite Hy. reflexivity.
    + change (Ascii.eqb "x" "x") with true. cbv iota. rewrite Hx by lia. reflexivity.
Qed.

Lemma generateSessionId_collides_iff_witness :
  IdGen.generateSessionId any_random
  = IdGen.generateSessionId (fun k => (Z.of_nat k * 7 mod 97) * 2 # 194) <->
  (forall k, (k < 31)%nat -> k <> 15%nat ->
     IdGen.draw any_random k
     = IdGen.draw (fun k => (Z.of_nat k * 7 mod 97) * 2 # 194) k) /\
  Z.land (IdGen.draw any_random 15) 3
  = Z.land (IdGen.draw (fun k => (Z.of_nat k * 7 mod 97) * 2 # 194) 15) 3.
Proof.
  apply (generateSessionId_collides_iff any_random
           (fun k => (Z.of_nat k * 7 mod 97) * 2 # 194)).
  - intros k. unfold any_random, Qle, Qlt. simpl.
    pose proof (Z.mod_pos_bound (Z.of_nat k * 7) 97). lia.
  - intros k. unfold Qle, Qlt. simpl.
    pose proof (Z.mod_pos_bound (Z.of_nat k * 7) 97). lia.
Defined.
